(** * Spine-Assets-Optimizer: resize planning, packaging and atlas unpacking

    A shallow embedding of [src/utils/optimizer.ts] and
    [src/utils/atlasUnpacker.ts], and of the handlers that call them in
    [src/components/OptimizationModal.tsx] and in the application
    component, followed by the properties of the natural-language
    specification that were checked against it and by further properties
    of the code.

    - A JavaScript [number] is an IEEE 754 binary64 value: [spec_float] with
      precision 53 and maximal exponent 1024, with the operations of
      [SpecFloat] (round to nearest, ties to even).  [Math.ceil],
      [Math.floor], [Math.min], [Math.max] and [!==] are written out below.
      Counters, string indices and the pixel fields of atlas regions are
      integers, in [Z].
    - A JavaScript [Map] that is only queried is a [gmap]; one that is
      iterated is an association list in insertion order.
    - The browser (image decoding, canvas allocation, PNG encoding, object
      URLs) is a record of outcome functions: the code is a function of
      those outcomes.  A canvas is the list of its [drawImage] calls with
      the transformation in force; pixels are not modelled.
    - A zip archive is its table of file entries.
    - Callbacks ([onProgress]) are modelled by the list of their calls. *)

From Stdlib Require Import ZArith Bool Ascii SpecFloat.
From stdpp Require Import gmap strings list sorting pretty.

Local Open Scope Z_scope.

(** ** JavaScript numbers *)

Module JS.

Definition number : Type := spec_float.

Definition prec : Z := 53.
Definition emax : Z := 1024.

(** An integer literal, or an integer converted to a number. *)
Definition num (z : Z) : number := binary_normalize prec emax z 0 false.

Definition mul : number → number → number := SFmul prec emax.
Definition add : number → number → number := SFadd prec emax.
Definition div : number → number → number := SFdiv prec emax.

Definition isNaN (x : number) : bool :=
  match x with S754_nan => true | _ => false end.

(** [a <= b] on numbers (false as soon as one side is NaN). *)
Definition le (a b : number) : bool := SFleb a b.

(** [a !== b] on numbers: NaN differs from itself, and the two zeros are
    equal. *)
Definition strict_neq (a b : number) : bool := negb (SFeqb a b).

(** [Math.ceil]: NaN, the infinities, the zeros and every number with a
    non-negative exponent are integers already; otherwise the mantissa is
    shifted right and rounded up.  A negative number above -1 gives -0. *)
Definition Math_ceil (x : number) : number :=
  match x with
  | S754_finite s m e =>
      if 0 <=? e then x
      else
        let q := Z.shiftr (Zpos m) (- e) in
        let exact := Z.shiftl q (- e) =? Zpos m in
        if s then (if q =? 0 then S754_zero true else num (- q))
        else num (if exact then q else q + 1)
  | _ => x
  end.

(** [Math.floor x] is [-Math.ceil(-x)], signs of zero included. *)
Definition Math_floor (x : number) : number := SFopp (Math_ceil (SFopp x)).

(** [Math.min(a, b)]: NaN if either is NaN; -0 is below +0. *)
Definition Math_min (a b : number) : number :=
  match SFcompare a b with
  | None => S754_nan
  | Some Lt => a
  | Some Gt => b
  | Some Eq =>
      match a, b with
      | S754_zero sa, S754_zero sb => S754_zero (sa || sb)
      | _, _ => b
      end
  end.

(** [Math.max(a, b)]: NaN if either is NaN; +0 is above -0. *)
Definition Math_max (a b : number) : number :=
  match SFcompare a b with
  | None => S754_nan
  | Some Lt => b
  | Some Gt => a
  | Some Eq =>
      match a, b with
      | S754_zero sa, S754_zero sb => S754_zero (sa && sb)
      | _, _ => b
      end
  end.

(** [o ?? d]: the fallback is taken only for [undefined] (or [null]). *)
Definition nullish {A : Type} (o : option A) (d : A) : A := default d o.

End JS.

(** ** JavaScript strings *)

Module JSString.

(** [s.lastIndexOf(c)] for a one-character search string: the index of
    the last occurrence, or -1. *)
Fixpoint lastIndexOf_from (s : string) (c : ascii) (i found : Z) : Z :=
  match s with
  | EmptyString => found
  | String a rest =>
      lastIndexOf_from rest c (i + 1) (if Ascii.eqb a c then i else found)
  end.

Definition lastIndexOf (s : string) (c : ascii) : Z :=
  lastIndexOf_from s c 0 (-1).

(** [s.substring(start, end)]: both indices are clamped to the string and
    swapped when out of order. *)
Definition substring (s : string) (start stop : Z) : string :=
  let len := Z.of_nat (String.length s) in
  let a := Z.min (Z.max start 0) len in
  let b := Z.min (Z.max stop 0) len in
  String.substring (Z.to_nat (Z.min a b)) (Z.to_nat (Z.max a b - Z.min a b)) s.

End JSString.

(** ** Data model ([types.ts] is not part of the sources: the records carry
    the fields the two modules read and write) *)

(** The bytes of a [Blob] or [File]. *)
Definition Blob : Type := list Byte.byte.

Module Stat.
Record GlobalAssetStat : Type := {
  lookupKey : string;
  maxRenderWidth : JS.number;
  maxRenderHeight : JS.number;
  maxScaleX : JS.number;
  maxScaleY : JS.number;
  isOverridden : bool;
  overridePercentage : option JS.number
}.
End Stat.

Module Loaded.
(** An entry of the [loadedImages] map. *)
Record LoadedImage : Type := {
  width : JS.number;
  height : JS.number;
  sourceWidth : option JS.number;
  sourceHeight : option JS.number;
  file : Blob;
  originalPath : string
}.
End Loaded.

Module Task.
Record OptimizationTask : Type := {
  fileName : string;
  relativePath : string;
  originalWidth : JS.number;
  originalHeight : JS.number;
  targetWidth : JS.number;
  targetHeight : JS.number;
  blob : Blob;
  maxScaleUsed : JS.number;
  isResize : bool;
  overridePercentage : option JS.number
}.
End Task.

(** ** [Array.prototype.sort] *)

(** ECMAScript requires [sort] to be stable and to order by the sign of the
    comparator; for a consistent comparator the result does not depend on
    the algorithm.  Insertion from the right: an element goes in front of
    the first element it is not greater than. *)
Section ArraySort.
Context {A : Type} (cmp : A → A → Z).

Fixpoint sort_insert (x : A) (l : list A) : list A :=
  match l with
  | [] => [x]
  | y :: l' => if cmp x y <=? 0 then x :: y :: l' else y :: sort_insert x l'
  end.

Definition Array_sort (l : list A) : list A := foldr sort_insert [] l.
End ArraySort.

(** ** optimizer.ts *)

Module Optimizer.
Import Stat Loaded Task.

(** Lines 17-18: later entries of [stats] replace earlier ones with the
    same key. *)
Definition buildStatsMap (stats : list GlobalAssetStat)
  : gmap string GlobalAssetStat :=
  foldl (λ m s, <[lookupKey s := s]> m) ∅ stats.

(** Lines 33-34. *)
Definition physicalW (original : LoadedImage) : JS.number :=
  JS.nullish (sourceWidth original) (width original).
Definition physicalH (original : LoadedImage) : JS.number :=
  JS.nullish (sourceHeight original) (height original).

(** Line 47. *)
Definition bufferMultiplier (bufferPercentage : JS.number) : JS.number :=
  JS.add (JS.num 1) (JS.div bufferPercentage (JS.num 100)).

(** Lines 39-50. *)
Definition calculatedW (stat : GlobalAssetStat) (bufferPercentage : JS.number)
  : JS.number :=
  if isOverridden stat then maxRenderWidth stat
  else JS.Math_ceil (JS.mul (maxRenderWidth stat) (bufferMultiplier bufferPercentage)).
Definition calculatedH (stat : GlobalAssetStat) (bufferPercentage : JS.number)
  : JS.number :=
  if isOverridden stat then maxRenderHeight stat
  else JS.Math_ceil (JS.mul (maxRenderHeight stat) (bufferMultiplier bufferPercentage)).

(** Lines 54-59: the cap, then the clamp to 1. *)
Definition clampTarget (calculated physical : JS.number) : JS.number :=
  JS.Math_max (JS.num 1) (JS.Math_min calculated physical).

(** Lines 67-81. *)
Definition outputFileName (sourcePath : string) : string :=
  let lastSlashIndex :=
    Z.max (JSString.lastIndexOf sourcePath "/"%char)
          (JSString.lastIndexOf sourcePath "\"%char) in
  let lastDotIndex := JSString.lastIndexOf sourcePath "."%char in
  let basePath :=
    if lastSlashIndex <? lastDotIndex
    then JSString.substring sourcePath 0 lastDotIndex
    else sourcePath in
  basePath +:+ ".png".

(** Lines 31-95: the task pushed for a loaded image that has a stat. *)
Definition planTask (stat : GlobalAssetStat) (original : LoadedImage)
    (bufferPercentage : JS.number) : OptimizationTask :=
  let physW := physicalW original in
  let physH := physicalH original in
  let targetW := clampTarget (calculatedW stat bufferPercentage) physW in
  let targetH := clampTarget (calculatedH stat bufferPercentage) physH in
  let isResize := JS.strict_neq targetW physW || JS.strict_neq targetH physH in
  {| fileName := outputFileName (originalPath original);
     relativePath := originalPath original;
     originalWidth := physW;
     originalHeight := physH;
     targetWidth := targetW;
     targetHeight := targetH;
     blob := file original;
     maxScaleUsed := JS.Math_max (maxScaleX stat) (maxScaleY stat);
     isResize := isResize;
     overridePercentage := Stat.overridePercentage stat |}.

(** Lines 23-96: one turn of [loadedImages.forEach]. *)
Definition visitLoaded (statsMap : gmap string GlobalAssetStat)
    (bufferPercentage : JS.number) (tasks : list OptimizationTask)
    (entry : string * LoadedImage) : list OptimizationTask :=
  match statsMap !! entry.1 with
  | None => tasks
  | Some stat => tasks ++ [planTask stat entry.2 bufferPercentage]
  end.

(** Line 99. *)
Definition compareTasks (a b : OptimizationTask) : Z :=
  if Bool.eqb (isResize a) (isResize b) then 0
  else if isResize a then -1 else 1.

(** The tasks in the order they are pushed (lines 20-96). *)
Definition pushedTasks (stats : list GlobalAssetStat)
    (loadedImages : list (string * LoadedImage))
    (bufferPercentage : JS.number) : list OptimizationTask :=
  foldl (visitLoaded (buildStatsMap stats) bufferPercentage) [] loadedImages.

(** [bufferPercentage] is optional and defaults to 0. *)
Definition calculateOptimizationTargets (stats : list GlobalAssetStat)
    (loadedImages : list (string * LoadedImage))
    (bufferPercentage : option JS.number) : list OptimizationTask :=
  let buffer := JS.nullish bufferPercentage (JS.num 0) in
  Array_sort compareTasks (pushedTasks stats loadedImages buffer).

(** *** [resizeImage] and [generateOptimizedZip] *)

(** What the browser does with an image: whether the bytes decode
    ([img.onload] against [img.onerror]), whether a 2D context is obtained
    for a canvas of the given size, and what [canvas.toBlob] hands to its
    callback once the image is drawn at that size. *)
Record Browser : Type := {
  decodes : Blob → bool;
  getContext2d : JS.number → JS.number → bool;
  toBlob : Blob → JS.number → JS.number → option Blob
}.

(** Lines 104-137: the promise resolves with the encoded canvas, or with
    [null] when the image does not load or no context is obtained. *)
Definition resizeImage (env : Browser) (blob : Blob) (width height : JS.number)
  : option Blob :=
  if decodes env blob then
    let canvasWidth := JS.Math_floor width in
    let canvasHeight := JS.Math_floor height in
    if getContext2d env canvasWidth canvasHeight
    then toBlob env blob canvasWidth canvasHeight
    else None
  else None.

(** The part of JSZip that is used.  A zip object and the folder objects
    obtained from it share one table of files; a folder object is that
    table seen under a path prefix.  Only file entries are recorded. *)
Module JSZip.
Definition Files : Type := gmap string Blob.

(** [zip.folder(name)]: the folder object is its prefix; the library
    returns an object for every name, its declared type allows null. *)
Definition folder (root name : string) : option string :=
  Some (root +:+ name +:+ "/").

(** [folder.file(name, data)] adds or replaces the entry. *)
Definition file (root name : string) (data : Blob) (files : Files) : Files :=
  <[root +:+ name := data]> files.
End JSZip.

(** The state of the loop of lines 148-170: the shared table of files,
    the counter and the calls made to [onProgress]. *)
Record ZipRun : Type := {
  zipFiles : JSZip.Files;
  completed : Z;
  progressCalls : list (Z * Z)
}.

(** Lines 155-166: the bytes written for a task. *)
Definition entryData (env : Browser) (task : OptimizationTask) : Blob :=
  if isResize task then
    match resizeImage env (blob task) (targetWidth task) (targetHeight task) with
    | Some resizedBlob => resizedBlob
    | None => blob task
    end
  else blob task.

(** Lines 151-169: one turn of the loop, for a folder object at [rootFolder]. *)
Definition zipTask (env : Browser) (rootFolder : string) (total : Z)
    (st : ZipRun) (task : OptimizationTask) : ZipRun :=
  let zipEntryName := fileName task in
  let files := JSZip.file rootFolder zipEntryName (entryData env task) (zipFiles st) in
  let completed' := completed st + 1 in
  {| zipFiles := files;
     completed := completed';
     progressCalls := progressCalls st ++ [(completed', total)] |}.

(** Lines 139-173.  The result is the table of files the archive is
    generated from, with the calls made to [onProgress], in order. *)
Definition generateOptimizedZip (env : Browser) (tasks : list OptimizationTask)
  : JSZip.Files * list (Z * Z) :=
  let start := {| zipFiles := ∅; completed := 0; progressCalls := [] |} in
  let final :=
    match JSZip.folder EmptyString "images_optimized" with
    | None => start
    | Some rootFolder =>
        foldl (zipTask env rootFolder (Z.of_nat (length tasks))) start tasks
    end in
  (zipFiles final, progressCalls final).

End Optimizer.

(** ** atlasUnpacker.ts *)

(** A region of an atlas page.  Its fields are pixel counts read from the
    atlas description; numbers of that size are exact integers, so they are
    in [Z] here. *)
Module Region.
Record AtlasRegion : Type := {
  name : string;
  pageName : string;
  x : Z;
  y : Z;
  width : Z;
  height : Z;
  offsetX : Z;
  offsetY : Z;
  originalWidth : Z;
  originalHeight : Z;
  rotated : bool
}.
End Region.

Module Asset.
Record UnpackedAsset : Type := {
  name : string;
  blob : Blob;
  width : Z;
  height : Z;
  url : string;
  sourceWidth : option Z;
  sourceHeight : option Z
}.
End Asset.

(** The 2D canvas, as far as [extractRegion] uses it: a current
    transformation, the stack of [save], and the [drawImage] calls with the
    transformation in force when they were made.  A point [(px, py)] of the
    drawing frame is the canvas point
    [(a*px + c*py + e, b*px + d*py + f)]. *)
Module Canvas.

Record Matrix : Type := { a : Z; b : Z; c : Z; d : Z; e : Z; f : Z }.

Definition identity : Matrix :=
  {| a := 1; b := 0; c := 0; d := 1; e := 0; f := 0 |}.

Definition apply (m : Matrix) (p : Z * Z) : Z * Z :=
  (a m * p.1 + c m * p.2 + e m, b m * p.1 + d m * p.2 + f m).

(** [ctx.translate(tx, ty)]. *)
Definition translate (tx ty : Z) (m : Matrix) : Matrix :=
  {| a := a m; b := b m; c := c m; d := d m;
     e := a m * tx + c m * ty + e m;
     f := b m * tx + d m * ty + f m |}.

(** Cosine and sine of [k] quarter turns. *)
Definition quarter_cos_sin (k : Z) : Z * Z :=
  match k mod 4 with
  | 0 => (1, 0)
  | 1 => (0, 1)
  | 2 => (-1, 0)
  | _ => (0, -1)
  end.

(** [ctx.rotate(angle)] for an angle of [k] quarter turns ([k * 90]
    degrees), with the exact cosine and sine of that angle. *)
Definition rotate (k : Z) (m : Matrix) : Matrix :=
  let '(cos, sin) := quarter_cos_sin k in
  {| a := a m * cos + c m * sin;
     b := b m * cos + d m * sin;
     c := c m * cos - a m * sin;
     d := d m * cos - b m * sin;
     e := e m; f := f m |}.

(** A rectangle: left, top, width, height. *)
Record Rect : Type := { left : Z; top : Z; rw : Z; rh : Z }.

(** [ctx.drawImage(img, sx, sy, sw, sh, dx, dy, dw, dh)] under a
    transformation. *)
Record DrawCall : Type := {
  image : Blob;
  source : Rect;
  dest : Rect;
  ctm : Matrix
}.

Record Context2D : Type := {
  current : Matrix;
  saved : list Matrix;
  drawn : list DrawCall
}.

Definition fresh : Context2D :=
  {| current := identity; saved := []; drawn := [] |}.

Definition save (ctx : Context2D) : Context2D :=
  {| current := current ctx; saved := current ctx :: saved ctx; drawn := drawn ctx |}.

Definition restore (ctx : Context2D) : Context2D :=
  match saved ctx with
  | [] => ctx
  | m :: rest => {| current := m; saved := rest; drawn := drawn ctx |}
  end.

Definition transform (g : Matrix → Matrix) (ctx : Context2D) : Context2D :=
  {| current := g (current ctx); saved := saved ctx; drawn := drawn ctx |}.

Definition drawImage (img : Blob) (src dst : Rect) (ctx : Context2D) : Context2D :=
  {| current := current ctx; saved := saved ctx;
     drawn := drawn ctx ++ [{| image := img; source := src; dest := dst; ctm := current ctx |}] |}.

(** The canvas rectangle a call paints: the bounding box of the four
    transformed corners of its destination rectangle. *)
Definition footprint (call : DrawCall) : Rect :=
  let r := dest call in
  let p1 := apply (ctm call) (left r, top r) in
  let p2 := apply (ctm call) (left r + rw r, top r) in
  let p3 := apply (ctm call) (left r, top r + rh r) in
  let p4 := apply (ctm call) (left r + rw r, top r + rh r) in
  let x0 := Z.min (Z.min p1.1 p2.1) (Z.min p3.1 p4.1) in
  let x1 := Z.max (Z.max p1.1 p2.1) (Z.max p3.1 p4.1) in
  let y0 := Z.min (Z.min p1.2 p2.2) (Z.min p3.2 p4.2) in
  let y1 := Z.max (Z.max p1.2 p2.2) (Z.max p3.2 p4.2) in
  {| left := x0; top := y0; rw := x1 - x0; rh := y1 - y0 |}.

Record t : Type := { width : Z; height : Z; context : Context2D }.

End Canvas.

Module AtlasUnpacker.
Import Region.

(** What the browser does for the unpacker: whether a page decodes,
    whether a 2D context is obtained for a region's canvas, what
    [canvas.toBlob] hands over, and the URL made for a blob. *)
Record Browser : Type := {
  pageDecodes : Blob → bool;
  getContext2d : AtlasRegion → bool;
  toBlob : Canvas.t → option Blob;
  createObjectURL : Blob → string
}.

(** Line 102. *)
Definition destX (region : AtlasRegion) : Z := offsetX region.

(** Line 108. *)
Definition packedHeightInOriginalSpace (region : AtlasRegion) : Z :=
  if rotated region then width region else height region.

(** Line 110. *)
Definition destY (region : AtlasRegion) : Z :=
  originalHeight region - (offsetY region + packedHeightInOriginalSpace region).

(** Lines 92-144: the canvas after the region is drawn.  The angle
    [-90 * Math.PI / 180] is one quarter turn backwards. *)
Definition drawRegion (img : Blob) (region : AtlasRegion) : Canvas.t :=
  let dx := destX region in
  let dy := destY region in
  let src := {| Canvas.left := x region; Canvas.top := y region;
                Canvas.rw := width region; Canvas.rh := height region |} in
  let ctx := Canvas.save Canvas.fresh in
  let ctx :=
    if rotated region then
      let ctx := Canvas.transform (Canvas.translate dx (dy + width region)) ctx in
      let ctx := Canvas.transform (Canvas.rotate (-1)) ctx in
      Canvas.drawImage img src
        {| Canvas.left := 0; Canvas.top := 0;
           Canvas.rw := width region; Canvas.rh := height region |} ctx
    else
      Canvas.drawImage img src
        {| Canvas.left := dx; Canvas.top := dy;
           Canvas.rw := width region; Canvas.rh := height region |} ctx in
  let ctx := Canvas.restore ctx in
  {| Canvas.width := originalWidth region;
     Canvas.height := originalHeight region;
     Canvas.context := ctx |}.

(** Lines 91-149. *)
Definition extractRegion (env : Browser) (img : Blob) (region : AtlasRegion)
  : option Blob :=
  if getContext2d env region then toBlob env (drawRegion img region) else None.

(** Lines 22-32: the regions of each page, pages in the order of their
    first region, regions in the order of the metadata. *)
Fixpoint pushRegion (region : AtlasRegion)
    (pageRegions : list (string * list AtlasRegion))
  : list (string * list AtlasRegion) :=
  match pageRegions with
  | [] => [(pageName region, [region])]
  | (p, rs) :: rest =>
      if String.eqb p (pageName region) then (p, rs ++ [region]) :: rest
      else (p, rs) :: pushRegion region rest
  end.

Definition groupByPage (regions : list AtlasRegion)
  : list (string * list AtlasRegion) :=
  foldl (λ pageRegions region, pushRegion region pageRegions) [] regions.

(** The state of the loops of lines 38-86. *)
Record UnpackRun : Type := {
  unpacked : gmap string Asset.UnpackedAsset;
  processedCount : Z;
  progressCalls : list (Z * Z)
}.

(** [if (onProgress) onProgress(current, total)]. *)
Definition report (onProgress : bool) (current total : Z)
    (calls : list (Z * Z)) : list (Z * Z) :=
  if onProgress then calls ++ [(current, total)] else calls.

(** Lines 43-45 and 61-63: a page that is missing or does not decode. *)
Definition skipPage (onProgress : bool) (totalRegions : Z)
    (regions : list AtlasRegion) (st : UnpackRun) : UnpackRun :=
  let count := processedCount st + Z.of_nat (length regions) in
  {| unpacked := unpacked st;
     processedCount := count;
     progressCalls := report onProgress count totalRegions (progressCalls st) |}.

(** Lines 67-83: one region of a decoded page. *)
Definition unpackRegion (env : Browser) (img : Blob) (onProgress : bool)
    (totalRegions : Z) (st : UnpackRun) (region : AtlasRegion) : UnpackRun :=
  let unpacked' :=
    match extractRegion env img region with
    | Some blob =>
        <[name region :=
            {| Asset.name := name region;
               Asset.blob := blob;
               Asset.width := originalWidth region;
               Asset.height := originalHeight region;
               Asset.url := createObjectURL env blob;
               Asset.sourceWidth := Some (originalWidth region);
               Asset.sourceHeight := Some (originalHeight region) |}]>
          (unpacked st)
    | None => unpacked st
    end in
  let count := processedCount st + 1 in
  {| unpacked := unpacked';
     processedCount := count;
     progressCalls := report onProgress count totalRegions (progressCalls st) |}.

(** Lines 38-86: one page. *)
Definition unpackPage (env : Browser) (texturePages : gmap string Blob)
    (onProgress : bool) (totalRegions : Z) (st : UnpackRun)
    (page : string * list AtlasRegion) : UnpackRun :=
  match texturePages !! page.1 with
  | None => skipPage onProgress totalRegions page.2 st
  | Some file =>
      if pageDecodes env file
      then foldl (unpackRegion env file onProgress totalRegions) st page.2
      else skipPage onProgress totalRegions page.2 st
  end.

(** Lines 14-89.  [atlasMetadata] is the map of regions in insertion
    order; [onProgress] tells whether a callback is given.  The result is
    the map of unpacked assets with the calls made to the callback. *)
Definition unpackTextures (env : Browser) (texturePages : gmap string Blob)
    (atlasMetadata : list (string * AtlasRegion)) (onProgress : bool)
  : gmap string Asset.UnpackedAsset * list (Z * Z) :=
  let regions := atlasMetadata.*2 in
  let pageRegions := groupByPage regions in
  let totalRegions := Z.of_nat (length regions) in
  let start :=
    {| unpacked := ∅; processedCount := 0;
       progressCalls := report onProgress 0 totalRegions [] |} in
  let final :=
    foldl (unpackPage env texturePages onProgress totalRegions) start pageRegions in
  (unpacked final, progressCalls final).

End AtlasUnpacker.

(** ** Vocabulary of the properties *)

Module Plan.
Import Stat Loaded Task Optimizer.

(** The task of one entry of [loadedImages], if it has a stat. *)
Definition planEntry (statsMap : gmap string GlobalAssetStat)
    (bufferPercentage : JS.number) (entry : string * LoadedImage)
  : option OptimizationTask :=
  match statsMap !! entry.1 with
  | None => None
  | Some stat => Some (planTask stat entry.2 bufferPercentage)
  end.

(** The loop of lines 23-96 with each pushed task labelled by the key of
    the loaded image it is pushed for. *)
Definition visitKeyed (statsMap : gmap string GlobalAssetStat)
    (bufferPercentage : JS.number) (tasks : list (string * OptimizationTask))
    (entry : string * LoadedImage) : list (string * OptimizationTask) :=
  match statsMap !! entry.1 with
  | None => tasks
  | Some stat => tasks ++ [(entry.1, planTask stat entry.2 bufferPercentage)]
  end.

Definition keyedTasks (stats : list GlobalAssetStat)
    (loadedImages : list (string * LoadedImage))
    (bufferPercentage : JS.number) : list (string * OptimizationTask) :=
  foldl (visitKeyed (buildStatsMap stats) bufferPercentage) [] loadedImages.

(** A number that is finite and not zero. *)
Definition finite_nonzero (x : JS.number) : Prop :=
  match x with S754_finite _ _ _ => True | _ => False end.

(** The invariant of an [OptimizationTask], in two parts. *)
Definition within_bounds (t : OptimizationTask) : Prop :=
  JS.le (JS.num 1) (targetWidth t) = true ∧
  JS.le (targetWidth t) (originalWidth t) = true ∧
  JS.le (JS.num 1) (targetHeight t) = true ∧
  JS.le (targetHeight t) (originalHeight t) = true.

Definition resize_flag_exact (t : OptimizationTask) : Prop :=
  isResize t = true ↔
  JS.strict_neq (targetWidth t) (originalWidth t) = true ∨
  JS.strict_neq (targetHeight t) (originalHeight t) = true.

Definition task_invariant (t : OptimizationTask) : Prop :=
  within_bounds t ∧ resize_flag_exact t.

(** Whether a character occurs in a string. *)
Fixpoint contains (c : ascii) (s : string) : bool :=
  match s with
  | EmptyString => false
  | String a rest => Ascii.eqb a c || contains c rest
  end.

(** [path] ends with the extension [ext], after [stem]: its last dot comes
    after its last separator. *)
Definition has_extension (path stem ext : string) : Prop :=
  path = stem +:+ "." +:+ ext ∧
  contains "." ext = false ∧ contains "/" ext = false ∧ contains "\" ext = false.

(** [path] has no extension: there is no dot after its last separator. *)
Definition no_extension (path : string) : Prop :=
  ∃ dir name,
    path = dir +:+ name ∧ contains "." name = false ∧
    (dir = EmptyString ∨ ∃ d, dir = d +:+ "/" ∨ dir = d +:+ "\").

(** The table of files after the entries of [tasks] are written in order
    under the root folder. *)
Definition written (env : Optimizer.Browser) (tasks : list OptimizationTask)
  : gmap string Blob :=
  foldl (λ files t, <["images_optimized/" +:+ fileName t := entryData env t]> files)
    ∅ tasks.

(** The number of calls that report [current = total]. *)
Definition completions (calls : list (Z * Z)) : nat :=
  length (filter (λ call, call.1 = call.2) calls).

(** Whether the unpacker can use a page: its file is present and decodes. *)
Definition pageUsable (env : AtlasUnpacker.Browser) (texturePages : gmap string Blob)
    (page : string * list Region.AtlasRegion) : bool :=
  match texturePages !! page.1 with
  | Some file => AtlasUnpacker.pageDecodes env file
  | None => false
  end.

(** The calls made for a page: one for each region of a usable page, a
    single one for a page that is skipped. *)
Definition callsForPage (env : AtlasUnpacker.Browser) (texturePages : gmap string Blob)
    (page : string * list Region.AtlasRegion) : nat :=
  if pageUsable env texturePages page then length page.2 else 1%nat.

(** The invariant of the loops, when a callback is given: the last call
    reports the current count, the counts increase, the total is fixed. *)
Definition reported (total : Z) (st : AtlasUnpacker.UnpackRun) : Prop :=
  head (AtlasUnpacker.progressCalls st) = Some (0, total) ∧
  last (AtlasUnpacker.progressCalls st) = Some (AtlasUnpacker.processedCount st, total) ∧
  StronglySorted Z.lt (AtlasUnpacker.progressCalls st).*1 ∧
  Forall (λ call, call.2 = total) (AtlasUnpacker.progressCalls st).

End Plan.

(** ** Sample inputs *)

Module Samples.
Import Stat Loaded Task.

Definition png : Blob := [Byte.x89; Byte.x50; Byte.x4e; Byte.x47].

Definition stat (key : string) (w h : Z) (overridden : bool) : GlobalAssetStat :=
  {| lookupKey := key;
     maxRenderWidth := JS.num w; maxRenderHeight := JS.num h;
     maxScaleX := JS.num 1; maxScaleY := JS.num 1;
     isOverridden := overridden;
     Stat.overridePercentage := if overridden then Some (JS.num 50) else None |}.

(** A raw image: its physical size is recorded as [sourceWidth] and
    [sourceHeight]. *)
Definition image (path : string) (w h : Z) : LoadedImage :=
  {| width := JS.num w; height := JS.num h;
     sourceWidth := Some (JS.num w); sourceHeight := Some (JS.num h);
     file := png; originalPath := path |}.

(** An image for which only the canonical size is known. *)
Definition bare_image (path : string) (w h : Z) : LoadedImage :=
  {| width := JS.num w; height := JS.num h;
     sourceWidth := None; sourceHeight := None;
     file := png; originalPath := path |}.

Definition hero_stat := stat "characters/hero" 512 256 false.
Definition hero_image := image "characters/hero.png" 1024 512.

Definition badge_stat := stat "ui/badge" 200 200 true.
Definition badge_image := image "ui/badge.png" 150 150.

(** A sprite that is never shown at a positive size. *)
Definition hidden_stat := stat "fx/hidden" 0 0 false.
Definition hidden_image := image "fx/hidden.png" 64 64.

(** An image whose size could not be read: the caller records 0. *)
Definition unread_image := image "ui/badge.png" 0 0.
Definition unread_stat := stat "fx/unread" 32 32 false.
Definition unread_fx_image := image "fx/unread.png" 0 0.

(** A browser in which every image decodes and every canvas is encoded,
    and one in which no image decodes. *)
Definition resized : Blob := [Byte.x52; Byte.x5a].

Definition working_browser : Optimizer.Browser :=
  {| Optimizer.decodes := λ _, true;
     Optimizer.getContext2d := λ _ _, true;
     Optimizer.toBlob := λ _ _ _, Some resized |}.

Definition failing_browser : Optimizer.Browser :=
  {| Optimizer.decodes := λ _, false;
     Optimizer.getContext2d := λ _ _, true;
     Optimizer.toBlob := λ _ _ _, Some resized |}.

Definition region (name page : string) (w h : Z) (rot : bool) : Region.AtlasRegion :=
  {| Region.name := name; Region.pageName := page;
     Region.x := 0; Region.y := 0; Region.width := w; Region.height := h;
     Region.offsetX := 5; Region.offsetY := 10;
     Region.originalWidth := 80; Region.originalHeight := 60;
     Region.rotated := rot |}.

(** The rotated region of the specification. *)
Definition rotated_region : Region.AtlasRegion := region "arm" "page1.png" 50 30 true.

(** A browser for the unpacker in which everything succeeds. *)
Definition unpacking_browser : AtlasUnpacker.Browser :=
  {| AtlasUnpacker.pageDecodes := λ _, true;
     AtlasUnpacker.getContext2d := λ _, true;
     AtlasUnpacker.toBlob := λ _, Some png;
     AtlasUnpacker.createObjectURL := λ _, "blob:1"%string |}.

(** Three regions on two pages, of which only the first page is supplied. *)
Definition atlas : list (string * Region.AtlasRegion) :=
  [("arm"%string, rotated_region);
   ("leg"%string, region "leg" "page2.png" 20 20 false);
   ("eye"%string, region "eye" "page2.png" 8 8 false)].

Definition pages : gmap string Blob := {[ "page1.png"%string := png ]}.

End Samples.

(** ** Vocabulary for the unpacker *)

Module Unpacked.
Import Region AtlasUnpacker.

(** The asset stored for a region whose extraction gave [blob] (lines
    71-79). *)
Definition assetOf (env : Browser) (region : AtlasRegion) (blob : Blob)
  : Asset.UnpackedAsset :=
  {| Asset.name := name region;
     Asset.blob := blob;
     Asset.width := originalWidth region;
     Asset.height := originalHeight region;
     Asset.url := createObjectURL env blob;
     Asset.sourceWidth := Some (originalWidth region);
     Asset.sourceHeight := Some (originalHeight region) |}.

(** What extraction gives for a region: nothing when its page is missing
    or does not decode. *)
Definition regionResult (env : Browser) (texturePages : gmap string Blob)
    (region : AtlasRegion) : option Blob :=
  match texturePages !! pageName region with
  | Some file => if pageDecodes env file then extractRegion env file region else None
  | None => None
  end.

(** What one region adds to the map of unpacked assets. *)
Definition store (env : Browser) (texturePages : gmap string Blob)
    (unpacked : gmap string Asset.UnpackedAsset) (region : AtlasRegion)
  : gmap string Asset.UnpackedAsset :=
  match regionResult env texturePages region with
  | Some blob => <[name region := assetOf env region blob]> unpacked
  | None => unpacked
  end.

(** The regions in the order they are processed: page by page. *)
Definition processingOrder (regions : list AtlasRegion) : list AtlasRegion :=
  mjoin (groupByPage regions).*2.

(** The invariant of the grouping loop after the regions [seen]. *)
Definition grouped (seen : list AtlasRegion)
    (pageRegions : list (string * list AtlasRegion)) : Prop :=
  NoDup pageRegions.*1 ∧
  (∀ p rs, (p, rs) ∈ pageRegions →
     rs = filter (λ r, pageName r = p) seen ∧ rs ≠ []) ∧
  (∀ r, r ∈ seen → pageName r ∈ pageRegions.*1) ∧
  mjoin pageRegions.*2 ≡ₚ seen.

End Unpacked.

Module Placement.

(** Whether a rectangle lies within a canvas. *)
Definition inside (canvas : Canvas.t) (r : Canvas.Rect) : Prop :=
  0 ≤ Canvas.left r ∧ 0 ≤ Canvas.top r ∧
  Canvas.left r + Canvas.rw r ≤ Canvas.width canvas ∧
  Canvas.top r + Canvas.rh r ≤ Canvas.height canvas.

(** Whether the packed pixels of a region, put back at the region's
    offsets, fit in the original image: across, the packed rectangle spans
    its height when rotated and its width otherwise. *)
Definition fits (region : Region.AtlasRegion) : Prop :=
  0 ≤ Region.offsetX region ∧ 0 ≤ Region.offsetY region ∧
  Region.offsetX region
    + (if Region.rotated region then Region.height region else Region.width region)
    ≤ Region.originalWidth region ∧
  Region.offsetY region
    + (if Region.rotated region then Region.width region else Region.height region)
    ≤ Region.originalHeight region.

End Placement.

(** [a < b] on numbers. *)
Definition JS_lt (a b : JS.number) : bool := SFltb a b.

(** ** [Array.prototype.filter] with the index *)

Definition Array_filteri {A : Type} (keep : A → nat → bool) (l : list A) : list A :=
  (filter (λ entry, keep entry.2 entry.1 = true) (imap pair l)).*2.

(** ** The optimization dialog: [src/components/OptimizationModal.tsx] *)

Module OptimizationModal.
Import Task Optimizer.

(** The modifier keys of a click. *)
Record MouseEvent : Type := { shiftKey : bool; ctrlKey : bool; metaKey : bool }.

(** Lines 30-31: the selected rows and the anchor of a range. *)
Record Selection : Type := {
  selectedIndices : gset nat;
  lastSelectedIndex : option nat
}.

Definition initial : Selection :=
  {| selectedIndices := ∅; lastSelectedIndex := None |}.

(** Line 36. *)
Definition resizeTasks (tasks : list OptimizationTask) : list OptimizationTask :=
  filter (λ t, isResize t = true) tasks.

(** Lines 55-57: [for (let i = start; i <= end; i++) newSelected.add(i)]. *)
Definition addRange (start stop : nat) (newSelected : gset nat) : gset nat :=
  foldl (λ selected i, {[i]} ∪ selected) newSelected (seq start (S stop - start)).

(** Lines 44-73. *)
Definition handleRowClick (index : nat) (e : MouseEvent) (st : Selection) : Selection :=
  let newSelected := selectedIndices st in
  match shiftKey e, lastSelectedIndex st with
  | true, Some anchor =>
      let start := Nat.min anchor index in
      let stop := Nat.max anchor index in
      let newSelected :=
        if negb (ctrlKey e) && negb (metaKey e) then ∅ else newSelected in
      {| selectedIndices := addRange start stop newSelected;
         lastSelectedIndex := lastSelectedIndex st |}
  | _, _ =>
      if ctrlKey e || metaKey e then
        {| selectedIndices :=
             if bool_decide (index ∈ newSelected)
             then newSelected ∖ {[index]}
             else {[index]} ∪ newSelected;
           lastSelectedIndex := Some index |}
      else
        {| selectedIndices := {[index]}; lastSelectedIndex := Some index |}
  end.

(** What a click on a download button hands to the browser: one file, or
    an archive given by its table of files. *)
Inductive Download : Type :=
  | File (download : string) (data : Blob)
  | Archive (download : string) (files : JSZip.Files).

(** Lines 75-95. *)
Definition handleDownloadSingle (env : Browser) (task : OptimizationTask) : Download :=
  let blobToDownload :=
    if isResize task then
      match resizeImage env (blob task) (targetWidth task) (targetHeight task) with
      | Some resized => resized
      | None => blob task
      end
    else blob task in
  File (fileName task) blobToDownload.

(** Line 106. *)
Definition selectedTasks (tasks : list OptimizationTask) (selected : gset nat)
  : list OptimizationTask :=
  Array_filteri (λ _ i, bool_decide (i ∈ selected)) tasks.

(** Lines 97-133, when no step throws; nothing is downloaded when a batch
    is already being made. *)
Definition handleDownloadAction (env : Browser) (tasks : list OptimizationTask)
    (selected : gset nat) (batchProcessing : bool)
    (task : OptimizationTask) (index : nat) : option Download :=
  if bool_decide (index ∈ selected) && (1 <? size selected)%nat then
    if batchProcessing then None
    else
      let selectedTasks := selectedTasks tasks selected in
      let files := (generateOptimizedZip env selectedTasks).1 in
      Some (Archive ("optimized_assets_batch_" +:+ pretty (length selectedTasks) +:+ ".zip")
              files)
  else Some (handleDownloadSingle env task).

End OptimizationModal.

(** ** The application: the callers in [App] *)

Module App.
Import Stat Loaded Task Optimizer.

(** Lines 1201-1226, the count of resized tasks: [report] is absent until
    an analysis has run. *)
Definition resizedCount (report : option (list GlobalAssetStat))
    (processedAssets : list (string * LoadedImage))
    (optimizationBuffer : JS.number) : Z :=
  match report with
  | None => 0
  | Some globalStats =>
      let tasks :=
        calculateOptimizationTargets globalStats processedAssets (Some optimizationBuffer) in
      foldl (λ resizedCount t, if isResize t then resizedCount + 1 else resizedCount) 0 tasks
  end.

(** The state the optimization handlers work on. *)
Record OptState : Type := {
  optTasks : list OptimizationTask;
  isOptModalOpen : bool;
  optimizationBuffer : JS.number
}.

(** Lines 1228-1234. *)
Definition handleOpenOptimization (report : option (list GlobalAssetStat))
    (processedAssets : list (string * LoadedImage)) (st : OptState) : OptState :=
  match report with
  | None => st
  | Some globalStats =>
      {| optTasks :=
           calculateOptimizationTargets globalStats processedAssets
             (Some (optimizationBuffer st));
         isOptModalOpen := true;
         optimizationBuffer := optimizationBuffer st |}
  end.

(** Lines 1241-1247. *)
Definition handleBufferChange (report : option (list GlobalAssetStat))
    (processedAssets : list (string * LoadedImage)) (newBuffer : JS.number)
    (st : OptState) : OptState :=
  match report with
  | None => st
  | Some globalStats =>
      {| optTasks :=
           calculateOptimizationTargets globalStats processedAssets (Some newBuffer);
         isOptModalOpen := isOptModalOpen st;
         optimizationBuffer := newBuffer |}
  end.


(** An entry of [currentInMemoryImages]: an asset, with the name of its
    blob when that blob is a [File] (a raw image; an unpacked region has a
    plain [Blob]). *)
Record InMemoryImage : Type := {
  asset : Asset.UnpackedAsset;
  blobFileName : option string
}.

(** Line 1043: [unpacked.forEach((v, k) => currentInMemoryImages.set(k, v))]. *)
Definition setAll (unpacked : gmap string Asset.UnpackedAsset)
    (currentInMemoryImages : gmap string InMemoryImage) : gmap string InMemoryImage :=
  foldl (λ images entry, <[entry.1 := {| asset := entry.2; blobFileName := None |}]> images)
    currentInMemoryImages (map_to_list unpacked).

(** Lines 1035-1044 (stage 2b).  The callback given to [unpackTextures]
    only updates the progress display. *)
Definition unpackAtlas (env : AtlasUnpacker.Browser)
    (currentTexturePages : gmap string Blob)
    (currentAtlasMetadata : list (string * Region.AtlasRegion))
    (currentInMemoryImages : gmap string InMemoryImage) : gmap string InMemoryImage :=
  if (0 <? length currentAtlasMetadata)%nat && (0 <? size currentTexturePages)%nat then
    let unpacked :=
      (AtlasUnpacker.unpackTextures env currentTexturePages currentAtlasMetadata true).1 in
    setAll unpacked currentInMemoryImages
  else currentInMemoryImages.

(** Lines 1048-1051. *)
Definition atlasPagesToCheck (currentAtlasMetadata : list (string * Region.AtlasRegion))
  : gset string :=
  foldl (λ pages region, {[Region.pageName region]} ∪ pages) ∅ currentAtlasMetadata.*2.

(** Lines 1054-1059: one turn of the loop over the keys. *)
Definition checkKey (pages : gset string) (images : gmap string InMemoryImage)
    (key : string) : gmap string InMemoryImage :=
  match images !! key with
  | None => images
  | Some image =>
      match blobFileName image with
      | Some name => if bool_decide (name ∈ pages) then delete key images else images
      | None => images
      end
  end.

(** Lines 1046-1060 (stage 2c). *)
Definition cleanupAtlasPages (currentAtlasMetadata : list (string * Region.AtlasRegion))
    (currentInMemoryImages : gmap string InMemoryImage) : gmap string InMemoryImage :=
  if (0 <? length currentAtlasMetadata)%nat then
    let keysToCheck := (map_to_list currentInMemoryImages).*1 in
    foldl (checkKey (atlasPagesToCheck currentAtlasMetadata)) currentInMemoryImages
      keysToCheck
  else currentInMemoryImages.

End App.

(** ** Vocabulary for the atlas stage *)

Module Stage.
Import App.

(** An unpacked asset as an entry of [currentInMemoryImages]. *)
Definition unpackedEntry (a : Asset.UnpackedAsset) : InMemoryImage :=
  {| asset := a; blobFileName := None |}.

(** Whether an entry holds a [File] whose name is one of [pages]. *)
Definition isPageFile (pages : gset string) (image : InMemoryImage) : bool :=
  match blobFileName image with
  | Some name => bool_decide (name ∈ pages)
  | None => false
  end.

End Stage.

(** * Properties *)

Import Stat Loaded Task Optimizer.

(** ** Lists *)

Lemma filter_none {A} (P : A → Prop) `{∀ x, Decision (P x)} (l : list A) :
  (∀ x, x ∈ l → ¬ P x) → filter P l = [].
Proof.
  induction l as [|x l IH]; [done|]. intros Hl.
  rewrite filter_cons_False by (apply Hl; by left).
  apply IH. intros y Hy. apply Hl. by right.
Qed.

(** ** Numbers *)

Section Numbers.
Import Plan.

Lemma num_1 : JS.num 1 = S754_finite false 4503599627370496 (-52).
Proof. reflexivity. Qed.

(** The operations on a few values. *)
Example ceil_half : JS.Math_ceil (JS.div (JS.num 1) (JS.num 2)) = JS.num 1.
Proof. reflexivity. Qed.

Example ceil_minus_half :
  JS.Math_ceil (JS.div (JS.num (-1)) (JS.num 2)) = S754_zero true.
Proof. reflexivity. Qed.

Example ceil_minus_three_halves :
  JS.Math_ceil (JS.div (JS.num (-3)) (JS.num 2)) = JS.num (-1).
Proof. reflexivity. Qed.

Example ceil_integer : JS.Math_ceil (JS.num 564) = JS.num 564.
Proof. reflexivity. Qed.

Example floor_three_halves :
  JS.Math_floor (JS.div (JS.num 3) (JS.num 2)) = JS.num 1.
Proof. reflexivity. Qed.

Example min_NaN : JS.Math_min S754_nan (JS.num 1) = S754_nan.
Proof. reflexivity. Qed.

Example max_zeros : JS.Math_max (S754_zero true) (S754_zero false) = S754_zero false.
Proof. reflexivity. Qed.

(** Rounding is that of the code: [1 + 10/100] is the double next to 1.1,
    and 100 times it lies just above 110. *)
Example buffer_rounding :
  JS.Math_ceil (JS.mul (JS.num 100) (bufferMultiplier (JS.num 10))) = JS.num 111 ∧
  JS.Math_ceil (JS.mul (JS.num 512) (bufferMultiplier (JS.num 10))) = JS.num 564.
Proof. split; reflexivity. Qed.

Lemma compare_None (a b : JS.number) :
  SFcompare a b = None → JS.isNaN a = true ∨ JS.isNaN b = true.
Proof.
  destruct a as [sa|sa| |sa ma ea], b as [sb|sb| |sb mb eb]; simpl;
    intros H; try discriminate H; auto.
Qed.

Lemma compare_refl (a : JS.number) :
  JS.isNaN a = false → SFcompare a a = Some Eq.
Proof.
  destruct a as [s|s| |s m e]; simpl; intros H; try discriminate H; auto.
  - by destruct s.
  - rewrite Z.compare_refl, Pos.compare_cont_refl. by destruct s.
Qed.

Lemma le_not_NaN_r (a b : JS.number) : JS.le a b = true → JS.isNaN b = false.
Proof.
  unfold JS.le, SFleb.
  destruct a as [sa|sa| |sa ma ea], b as [sb|sb| |sb mb eb]; simpl; auto.
Qed.

Lemma le_refl (a : JS.number) : JS.isNaN a = false → JS.le a a = true.
Proof. intros H. unfold JS.le, SFleb. by rewrite compare_refl. Qed.

Lemma le_1_not_zero (p : JS.number) :
  JS.le (JS.num 1) p = true → ∀ s, p ≠ S754_zero s.
Proof. intros H s ->. rewrite num_1 in H. discriminate H. Qed.

(** The cap and the clamp keep a number between 1 and the physical
    dimension, when the latter is at least 1. *)
Lemma clampTarget_bounds (calculated physical : JS.number) :
  JS.le (JS.num 1) physical = true →
  JS.isNaN calculated = false →
  JS.le (JS.num 1) (clampTarget calculated physical) = true ∧
  JS.le (clampTarget calculated physical) physical = true.
Proof.
  intros Hp Hc.
  pose proof (le_not_NaN_r _ _ Hp) as Hpn.
  pose proof (le_1_not_zero _ Hp) as Hpz.
  assert (Hmin : JS.Math_min calculated physical = calculated
                 ∧ JS.le calculated physical = true
                 ∨ JS.Math_min calculated physical = physical).
  { unfold JS.Math_min, JS.le, SFleb.
    destruct (SFcompare calculated physical) as [[]|] eqn:Hcmp; auto.
    - right. destruct calculated, physical; try reflexivity.
      by destruct (Hpz s0).
    - destruct (compare_None _ _ Hcmp); congruence. }
  assert (Hmax : ∀ m, JS.isNaN m = false → JS.le m physical = true →
            JS.le (JS.num 1) (JS.Math_max (JS.num 1) m) = true ∧
            JS.le (JS.Math_max (JS.num 1) m) physical = true).
  { intros m Hm Hle. unfold JS.Math_max.
    destruct (SFcompare (JS.num 1) m) as [[]|] eqn:Hcmp.
    - assert (JS.le (JS.num 1) m = true) as H1
        by (unfold JS.le, SFleb; by rewrite Hcmp).
      rewrite num_1. rewrite num_1 in H1. by destruct m.
    - split; [|done]. unfold JS.le, SFleb. by rewrite Hcmp.
    - split; [|done]. by apply le_refl.
    - destruct (compare_None _ _ Hcmp); [|congruence].
      rewrite num_1 in *. discriminate. }
  unfold clampTarget.
  destruct Hmin as [[-> Hle]| ->]; [by apply Hmax|].
  apply Hmax; [done|by apply le_refl].
Qed.

(** Where the capped value is at least 1 the clamp changes nothing. *)
Lemma clampTarget_above_1 (calculated physical : JS.number) :
  JS.le (JS.num 1) (JS.Math_min calculated physical) = true →
  clampTarget calculated physical = JS.Math_min calculated physical.
Proof.
  unfold clampTarget. generalize (JS.Math_min calculated physical) as m.
  intros m H. pose proof (le_1_not_zero _ H) as Hz.
  unfold JS.Math_max. unfold JS.le, SFleb in H.
  by destruct (SFcompare (JS.num 1) m) as [[]|] eqn:Hcmp.
Qed.

(** *** Rounding never makes a NaN *)

Lemma shr_1_nonneg mrs : 0 ≤ shr_m mrs → 0 ≤ shr_m (shr_1 mrs).
Proof. destruct mrs as [[|[p|p|]|[p|p|]] r s]; simpl; lia. Qed.

Lemma iter_shr_1_nonneg p mrs :
  0 ≤ shr_m mrs → 0 ≤ shr_m (SpecFloat.iter_pos shr_1 p mrs).
Proof.
  revert mrs. induction p as [p IH|p IH|]; intros mrs H; simpl.
  - by apply IH, IH, shr_1_nonneg.
  - by apply IH, IH.
  - by apply shr_1_nonneg.
Qed.

Lemma shr_fexp_nonneg m e l :
  0 ≤ m → 0 ≤ shr_m (shr_fexp JS.prec JS.emax m e l).1.
Proof.
  intros H. unfold shr_fexp, shr.
  assert (0 ≤ shr_m (shr_record_of_loc m l)) by (by destruct l as [|[]]).
  destruct (fexp JS.prec JS.emax (Zdigits2 m + e) - e); simpl; [done| |done].
  by apply iter_shr_1_nonneg.
Qed.

Lemma binary_round_aux_not_NaN sx mx ex lx :
  0 ≤ mx → JS.isNaN (binary_round_aux JS.prec JS.emax sx mx ex lx) = false.
Proof.
  intros H. unfold binary_round_aux.
  pose proof (shr_fexp_nonneg mx ex lx H) as H1.
  destruct (shr_fexp JS.prec JS.emax mx ex lx) as [mrs' e']. simpl in H1.
  assert (0 ≤ round_nearest_even (shr_m mrs') (loc_of_shr_record mrs')) as H2.
  { unfold round_nearest_even.
    destruct (loc_of_shr_record mrs') as [|[]]; try done; [|lia].
    destruct (Z.even (shr_m mrs')); lia. }
  pose proof (shr_fexp_nonneg _ e' loc_Exact H2) as H3.
  destruct (shr_fexp JS.prec JS.emax _ e' loc_Exact) as [mrs'' e'']. simpl in H3.
  destruct (shr_m mrs''); [done| |lia].
  by destruct (e'' <=? JS.emax - JS.prec).
Qed.

Lemma num_not_NaN z : JS.isNaN (JS.num z) = false.
Proof.
  unfold JS.num, binary_normalize, binary_round.
  destruct z; [done| |];
    destruct (shl_align _ _ _); by apply binary_round_aux_not_NaN.
Qed.

Lemma Math_ceil_not_NaN x : JS.isNaN x = false → JS.isNaN (JS.Math_ceil x) = false.
Proof.
  destruct x as [s|s| |s m e]; try done. intros _. simpl.
  destruct (0 <=? e); [done|].
  destruct s; [|apply num_not_NaN].
  destruct (_ =? 0); [done|apply num_not_NaN].
Qed.

Lemma mul_not_NaN s m e y :
  JS.isNaN y = false → JS.isNaN (JS.mul (S754_finite s m e) y) = false.
Proof.
  destruct y as [sy|sy| |sy my ey]; try done. intros _.
  by apply binary_round_aux_not_NaN.
Qed.

Lemma div_by_finite_not_NaN x s m e :
  JS.isNaN x = false → JS.isNaN (JS.div x (S754_finite s m e)) = false.
Proof.
  destruct x as [sx|sx| |sx mx ex]; try done. intros _.
  unfold JS.div, SFdiv, SFdiv_core_binary.
  set (shift := _ - _ - _).
  set (m' := match shift with Z0 => Z.pos mx | Z.pos _ => Z.shiftl (Z.pos mx) shift | Z.neg _ => 0 end).
  assert (0 ≤ m') as Hm'.
  { subst m'. destruct shift; [lia| |lia]. by apply Z.shiftl_nonneg. }
  pose proof (Z.div_pos m' (Z.pos m) Hm' ltac:(lia)) as Hq.
  unfold Z.div in Hq. destruct (Z.div_eucl m' (Z.pos m)) as [q r].
  by apply binary_round_aux_not_NaN.
Qed.

Lemma add_to_finite_not_NaN s m e y :
  JS.isNaN y = false → JS.isNaN (JS.add (S754_finite s m e) y) = false.
Proof.
  destruct y as [sy|sy| |sy my ey]; try done. intros _.
  unfold JS.add, SFadd, binary_normalize, binary_round.
  destruct (_ + _); [done| |];
    destruct (shl_align _ _ _); by apply binary_round_aux_not_NaN.
Qed.

(** The multiplier of a buffer that is a number is a number. *)
Lemma bufferMultiplier_not_NaN b :
  JS.isNaN b = false → JS.isNaN (bufferMultiplier b) = false.
Proof.
  intros H. unfold bufferMultiplier.
  change (JS.num 1) with (S754_finite false 4503599627370496 (-52)).
  apply add_to_finite_not_NaN.
  change (JS.num 100) with (S754_finite false 7036874417766400 (-46)).
  by apply div_by_finite_not_NaN.
Qed.

(** The required size is a number as soon as the stat's size is finite and
    not zero and the buffer is a number. *)
Lemma calculated_not_NaN stat b :
  finite_nonzero (maxRenderWidth stat) → finite_nonzero (maxRenderHeight stat) →
  JS.isNaN b = false →
  JS.isNaN (calculatedW stat b) = false ∧ JS.isNaN (calculatedH stat b) = false.
Proof.
  intros HW HH Hb. unfold calculatedW, calculatedH.
  destruct (maxRenderWidth stat) as [| | |sw mw ew]; try done.
  destruct (maxRenderHeight stat) as [| | |sh mh eh]; try done.
  destruct (isOverridden stat); [done|].
  split; by apply Math_ceil_not_NaN, mul_not_NaN, bufferMultiplier_not_NaN.
Qed.

(** *** The order on numbers *)

Lemma compare_antisym (a b : JS.number) c :
  SFcompare a b = Some c → SFcompare b a = Some (CompOpp c).
Proof.
  destruct a as [[]|[]| |[] ma ea], b as [[]|[]| |[] mb eb]; simpl;
    try (intros [= <-]; reflexivity); try discriminate.
  - intros [= <-]. rewrite (Z.compare_antisym ea eb).
    destruct (ea ?= eb) eqn:He; simpl; try done.
    rewrite (Pos.compare_cont_antisym _ _ Eq). simpl. by rewrite CompOpp_involutive.
  - intros [= <-]. rewrite (Z.compare_antisym ea eb).
    destruct (ea ?= eb) eqn:He; simpl; try done.
    by rewrite (Pos.compare_cont_antisym _ _ Eq).
Qed.

Lemma le_transitive (a b c : JS.number) :
  JS.le a b = true → JS.le b c = true → JS.le a c = true.
Proof.
  unfold JS.le, SFleb.
  destruct a as [[]|[]| |[] ma ea], b as [[]|[]| |[] mb eb], c as [[]|[]| |[] mc ec];
    simpl; try done.
  - change (Pos.compare_cont Eq ?x ?y) with (Pos.compare x y).
    destruct (Z.compare_spec ea eb), (Z.compare_spec eb ec), (Z.compare_spec ea ec);
      simpl; try done; try lia; subst;
    destruct (Pos.compare_spec ma mb), (Pos.compare_spec mb mc), (Pos.compare_spec ma mc);
      simpl; try done; try lia.
  - change (Pos.compare_cont Eq ?x ?y) with (Pos.compare x y).
    destruct (Z.compare_spec ea eb), (Z.compare_spec eb ec), (Z.compare_spec ea ec);
      simpl; try done; try lia; subst;
    destruct (Pos.compare_spec ma mb), (Pos.compare_spec mb mc), (Pos.compare_spec ma mc);
      simpl; try done; try lia.
Qed.

Lemma compare_le (a b : JS.number) :
  JS.le a b = true ↔ SFcompare a b = Some Lt ∨ SFcompare a b = Some Eq.
Proof.
  unfold JS.le, SFleb. destruct (SFcompare a b) as [[]|]; split; try done; auto.
  - by intros [?|?].
  - by intros [?|?].
Qed.

Lemma lt_not_le (a b : JS.number) : JS.le b a = true → JS_lt a b = false.
Proof.
  intros [H|H]%compare_le; apply compare_antisym in H;
    unfold JS_lt, SFltb; by rewrite H.
Qed.

Lemma Math_max_1 (x : JS.number) :
  JS.le (JS.num 1) x = true → JS.Math_max (JS.num 1) x = x.
Proof.
  intros [H|H]%compare_le; unfold JS.Math_max; rewrite H; [done|].
  rewrite num_1. by destruct x.
Qed.

Lemma Math_min_covered (calculated physical : JS.number) :
  JS.le (JS.num 1) physical = true →
  JS.le physical calculated = true →
  JS.Math_min calculated physical = physical.
Proof.
  intros Hp [H|H]%compare_le; apply compare_antisym in H; simpl in H;
    unfold JS.Math_min; rewrite H; [done|].
  by destruct calculated, physical.
Qed.

(** A physical size of at least 1 that the required size covers is the
    target. *)
Lemma clampTarget_covered (calculated physical : JS.number) :
  JS.le (JS.num 1) physical = true →
  JS.le physical calculated = true →
  clampTarget calculated physical = physical.
Proof.
  intros Hp Hc. unfold clampTarget. by rewrite Math_min_covered, Math_max_1.
Qed.

Lemma clampTarget_resize (calculated physical : JS.number) :
  JS.le (JS.num 1) physical = true →
  JS.isNaN calculated = false →
  JS.strict_neq (clampTarget calculated physical) physical
  = JS_lt (JS.Math_max (JS.num 1) calculated) physical.
Proof.
  intros Hp Hc.
  assert (JS.isNaN physical = false) as Hn by (by destruct physical).
  assert (JS.strict_neq physical physical = false) as Hrefl.
  { unfold JS.strict_neq, SFeqb. by rewrite compare_refl. }
  assert (JS.le physical calculated = true →
          JS.strict_neq (clampTarget calculated physical) physical
          = JS_lt (JS.Math_max (JS.num 1) calculated) physical) as Hcovered.
  { intros Hle. rewrite clampTarget_covered, Hrefl by done.
    symmetry. apply lt_not_le. rewrite Math_max_1; [done|].
    by apply (le_transitive _ physical). }
  destruct (SFcompare calculated physical) as [[]|] eqn:Hcmp.
  - apply Hcovered, compare_le. right.
    by apply (compare_antisym calculated physical Eq).
  - unfold clampTarget, JS.Math_min. rewrite Hcmp.
    unfold JS.Math_max, JS.strict_neq, JS_lt, SFeqb, SFltb.
    destruct (SFcompare (JS.num 1) calculated) as [[]|] eqn:H1.
    + rewrite num_1 in *. destruct calculated; try done; by rewrite Hcmp.
    + by rewrite Hcmp.
    + apply compare_le in Hp as [H|H]; by rewrite H.
    + by destruct calculated.
  - apply Hcovered, compare_le. left.
    by apply (compare_antisym calculated physical Gt).
  - by destruct calculated, physical.
Qed.

End Numbers.

(** ** Planning: the loop and the sort *)

Section Planning.
Import Plan.

Lemma foldl_visitLoaded statsMap b loaded acc :
  foldl (visitLoaded statsMap b) acc loaded
  = acc ++ omap (planEntry statsMap b) loaded.
Proof.
  revert acc. induction loaded as [|entry loaded IH]; intros acc; simpl.
  - by rewrite app_nil_r.
  - rewrite IH. unfold visitLoaded, planEntry.
    destruct (statsMap !! entry.1); [|done]. by rewrite <- app_assoc.
Qed.

Lemma pushedTasks_omap stats loaded b :
  pushedTasks stats loaded b = omap (planEntry (buildStatsMap stats) b) loaded.
Proof. unfold pushedTasks. by rewrite foldl_visitLoaded. Qed.

Lemma foldl_visitKeyed statsMap b loaded acc :
  foldl (visitKeyed statsMap b) acc loaded
  = acc ++ omap (λ entry, pair entry.1 <$> planEntry statsMap b entry) loaded.
Proof.
  revert acc. induction loaded as [|entry loaded IH]; intros acc; simpl.
  - by rewrite app_nil_r.
  - rewrite IH. unfold visitKeyed, planEntry.
    destruct (statsMap !! entry.1); simpl; [|done]. by rewrite <- app_assoc.
Qed.

Lemma elem_of_pushedTasks stats loaded b t :
  t ∈ pushedTasks stats loaded b ↔
  ∃ key original stat,
    (key, original) ∈ loaded ∧ buildStatsMap stats !! key = Some stat ∧
    t = planTask stat original b.
Proof.
  rewrite pushedTasks_omap, list_elem_of_omap. unfold planEntry. split.
  - intros ([key original] & Hin & Ht). simpl in Ht.
    destruct (buildStatsMap stats !! key) as [stat|] eqn:Hs; [|done].
    exists key, original, stat. by injection Ht as <-.
  - intros (key & original & stat & Hin & Hs & ->).
    exists (key, original). simpl. by rewrite Hs.
Qed.

(** A stat found in the map is an element of the list, under its key. *)
Lemma buildStatsMap_lookup stats key stat :
  buildStatsMap stats !! key = Some stat →
  stat ∈ stats ∧ lookupKey stat = key.
Proof.
  unfold buildStatsMap.
  assert (∀ m : gmap string GlobalAssetStat,
            foldl (λ m s, <[lookupKey s := s]> m) m stats !! key = Some stat →
            (stat ∈ stats ∧ lookupKey stat = key) ∨ m !! key = Some stat) as H.
  { induction stats as [|s stats IH]; intros m; simpl; [auto|].
    intros [[Hin Hk]|Hm]%IH.
    - left. split; [by right|done].
    - destruct (decide (lookupKey s = key)) as [<-|Hne].
      + rewrite lookup_insert_eq in Hm. injection Hm as ->. left. split; [by left|done].
      + rewrite lookup_insert_ne in Hm by done. by right. }
  intros [?|Hm]%H; [done|]. by rewrite lookup_empty in Hm.
Qed.

Lemma buildStatsMap_dom stats key :
  is_Some (buildStatsMap stats !! key) ↔ key ∈ lookupKey <$> stats.
Proof.
  unfold buildStatsMap.
  assert (∀ m : gmap string GlobalAssetStat,
            is_Some (foldl (λ m s, <[lookupKey s := s]> m) m stats !! key) ↔
            key ∈ lookupKey <$> stats ∨ is_Some (m !! key)) as H.
  { induction stats as [|s stats IH]; intros m; simpl.
    - rewrite elem_of_nil. tauto.
    - rewrite IH, elem_of_cons, lookup_insert_is_Some.
      destruct (decide (lookupKey s = key)) as [Heq|Hne].
      + split; intros _; auto.
      + split; [intros [?|[?|[_ ?]]]|intros [[?|?]|?]]; auto; congruence. }
  rewrite H, lookup_empty. split; [intros [?|[? ?]]; done|auto].
Qed.

(** *** The sort is a stable partition *)

Lemma sort_insert_resize (x : OptimizationTask) l :
  isResize x = true → sort_insert compareTasks x l = x :: l.
Proof.
  intros Hx. destruct l as [|y l]; [done|]. simpl.
  unfold compareTasks. rewrite Hx. by destruct (isResize y).
Qed.

Lemma sort_insert_keep (x : OptimizationTask) resized kept :
  isResize x = false →
  Forall (λ t, isResize t = true) resized →
  Forall (λ t, isResize t = false) kept →
  sort_insert compareTasks x (resized ++ kept) = resized ++ x :: kept.
Proof.
  intros Hx Hr Hk. induction Hr as [|y resized Hy Hr IH]; simpl.
  - destruct Hk as [|y kept Hy Hk]; [done|]. simpl.
    unfold compareTasks. by rewrite Hx, Hy.
  - unfold compareTasks at 1. rewrite Hx, Hy. simpl. by rewrite IH.
Qed.

Lemma Array_sort_partition (l : list OptimizationTask) :
  Array_sort compareTasks l
  = filter (λ t, isResize t = true) l ++ filter (λ t, isResize t = false) l.
Proof.
  induction l as [|x l IH]; [done|].
  unfold Array_sort in *. simpl. rewrite IH.
  destruct (isResize x) eqn:Hx.
  - rewrite sort_insert_resize by done.
    rewrite filter_cons_True by done. by rewrite filter_cons_False by congruence.
  - rewrite sort_insert_keep; try done.
    + rewrite filter_cons_False by congruence. by rewrite filter_cons_True by done.
    + apply Forall_forall. by intros t [? ?]%list_elem_of_filter.
    + apply Forall_forall. by intros t [? ?]%list_elem_of_filter.
Qed.

Lemma elem_of_Array_sort (l : list OptimizationTask) t :
  t ∈ Array_sort compareTasks l ↔ t ∈ l.
Proof.
  rewrite Array_sort_partition, elem_of_app, !list_elem_of_filter.
  destruct (isResize t); split; try tauto; intros [[? ?]|[? ?]]; done.
Qed.

Lemma elem_of_calculateOptimizationTargets stats loaded b t :
  t ∈ calculateOptimizationTargets stats loaded b ↔
  ∃ key original stat,
    (key, original) ∈ loaded ∧ buildStatsMap stats !! key = Some stat ∧
    t = planTask stat original (JS.nullish b (JS.num 0)).
Proof.
  unfold calculateOptimizationTargets.
  by rewrite elem_of_Array_sort, elem_of_pushedTasks.
Qed.

End Planning.

(** ** The resize policy *)

Section ResizePolicy.
Import Plan Samples.

(** C1, as stated, fails: a stat with a required size of 0 on a 64x64
    image gives the target 1x1, where the capped required size
    [min(ceil(0 * 1), 64)] is 0. *)
Lemma buffered_target_floor_counterexample :
  let required := JS.Math_ceil (JS.mul (JS.num 0) (bufferMultiplier (JS.num 0))) in
  ∃ t, calculateOptimizationTargets [hidden_stat] [("fx/hidden"%string, hidden_image)] None = [t] ∧
       targetWidth t = JS.num 1 ∧ targetHeight t = JS.num 1 ∧
       JS.Math_min required (physicalW hidden_image) = S754_zero false ∧
       JS.strict_neq (targetWidth t) (JS.Math_min required (physicalW hidden_image)) = true.
Proof. eexists. by vm_compute. Qed.

(** C1 (amended): for a loaded image whose stat is not overridden, the
    task is planned with, on each axis, the target
    [max(1, min(ceil(maxRenderDim * (1 + buffer/100)), physicalDim))];
    this is [min(ceil(...), physicalDim)] whenever that value is at
    least 1. *)
Theorem buffered_target stats loaded b key original stat :
  (key, original) ∈ loaded →
  buildStatsMap stats !! key = Some stat →
  isOverridden stat = false →
  let buffer := JS.nullish b (JS.num 0) in
  let multiplier := JS.add (JS.num 1) (JS.div buffer (JS.num 100)) in
  let cappedW :=
    JS.Math_min (JS.Math_ceil (JS.mul (maxRenderWidth stat) multiplier)) (physicalW original) in
  let cappedH :=
    JS.Math_min (JS.Math_ceil (JS.mul (maxRenderHeight stat) multiplier)) (physicalH original) in
  let t := planTask stat original buffer in
  t ∈ calculateOptimizationTargets stats loaded b ∧
  targetWidth t = JS.Math_max (JS.num 1) cappedW ∧
  targetHeight t = JS.Math_max (JS.num 1) cappedH ∧
  (JS.le (JS.num 1) cappedW = true → targetWidth t = cappedW) ∧
  (JS.le (JS.num 1) cappedH = true → targetHeight t = cappedH) ∧
  isResize t = JS.strict_neq (targetWidth t) (physicalW original)
               || JS.strict_neq (targetHeight t) (physicalH original).
Proof.
  intros Hin Hs Hov buffer multiplier cappedW cappedH t.
  split; [apply elem_of_calculateOptimizationTargets; eauto 10|].
  assert (targetWidth t = clampTarget
            (JS.Math_ceil (JS.mul (maxRenderWidth stat) multiplier)) (physicalW original)) as HW.
  { subst t. simpl. unfold calculatedW. by rewrite Hov. }
  assert (targetHeight t = clampTarget
            (JS.Math_ceil (JS.mul (maxRenderHeight stat) multiplier)) (physicalH original)) as HH.
  { subst t. simpl. unfold calculatedH. by rewrite Hov. }
  split; [exact HW|]. split; [exact HH|].
  split; [intros H; rewrite HW; by apply clampTarget_above_1|].
  split; [intros H; rewrite HH; by apply clampTarget_above_1|].
  reflexivity.
Qed.

(** The example of the specification: 512x256 required, 1024x512
    physical, buffer 10 gives 564x282 and a resize. *)
Lemma buffered_target_example :
  let t := planTask hero_stat hero_image (JS.num 10) in
  t ∈ calculateOptimizationTargets [hero_stat]
        [("characters/hero"%string, hero_image)] (Some (JS.num 10)) ∧
  targetWidth t = JS.num 564 ∧ targetHeight t = JS.num 282 ∧ isResize t = true.
Proof.
  destruct (buffered_target [hero_stat] [("characters/hero"%string, hero_image)]
              (Some (JS.num 10)) "characters/hero" hero_image hero_stat)
    as (Hin & HW & HH & _).
  - apply list_elem_of_singleton. reflexivity.
  - vm_compute. reflexivity.
  - reflexivity.
  - split; [exact Hin|]. vm_compute. auto.
Defined.

(** C2, as stated, fails: an overridden stat of 200x200 on an image whose
    recorded physical size is 0x0 gives the target 1x1, which is neither
    [min(200, 0)] nor within the physical size. *)
Lemma override_upscales_counterexample :
  ∃ t, calculateOptimizationTargets [badge_stat] [("ui/badge"%string, unread_image)]
         (Some (JS.num 10)) = [t] ∧
       targetWidth t = JS.num 1 ∧ targetHeight t = JS.num 1 ∧
       JS.le (targetWidth t) (physicalW unread_image) = false ∧
       JS.le (targetHeight t) (physicalH unread_image) = false ∧
       JS.strict_neq (targetWidth t)
         (JS.Math_min (maxRenderWidth badge_stat) (physicalW unread_image)) = true.
Proof. eexists. by vm_compute. Qed.

(** C2 (amended): for a loaded image whose stat is overridden, the task is
    planned from [maxRenderWidth] and [maxRenderHeight] as given, whatever
    the buffer: the target is [max(1, min(maxRenderDim, physicalDim))] on
    each axis.  It does not exceed the physical dimension when that
    dimension is at least 1 (and the required one is not NaN). *)
Theorem override_target stats loaded b key original stat :
  (key, original) ∈ loaded →
  buildStatsMap stats !! key = Some stat →
  isOverridden stat = true →
  let t := planTask stat original (JS.nullish b (JS.num 0)) in
  t ∈ calculateOptimizationTargets stats loaded b ∧
  targetWidth t
    = JS.Math_max (JS.num 1) (JS.Math_min (maxRenderWidth stat) (physicalW original)) ∧
  targetHeight t
    = JS.Math_max (JS.num 1) (JS.Math_min (maxRenderHeight stat) (physicalH original)) ∧
  (∀ b', targetWidth (planTask stat original b') = targetWidth t ∧
         targetHeight (planTask stat original b') = targetHeight t ∧
         isResize (planTask stat original b') = isResize t) ∧
  (JS.le (JS.num 1) (physicalW original) = true →
   JS.isNaN (maxRenderWidth stat) = false →
   JS.le (targetWidth t) (physicalW original) = true) ∧
  (JS.le (JS.num 1) (physicalH original) = true →
   JS.isNaN (maxRenderHeight stat) = false →
   JS.le (targetHeight t) (physicalH original) = true).
Proof.
  intros Hin Hs Hov t.
  split; [apply elem_of_calculateOptimizationTargets; eauto 10|].
  assert (∀ b', targetWidth (planTask stat original b')
                = clampTarget (maxRenderWidth stat) (physicalW original)) as HW.
  { intros b'. simpl. unfold calculatedW. by rewrite Hov. }
  assert (∀ b', targetHeight (planTask stat original b')
                = clampTarget (maxRenderHeight stat) (physicalH original)) as HH.
  { intros b'. simpl. unfold calculatedH. by rewrite Hov. }
  split; [apply HW|]. split; [apply HH|]. split.
  - intros b'. subst t. rewrite !HW, !HH. split; [done|]. split; [done|].
    simpl. unfold calculatedW, calculatedH. by rewrite Hov.
  - subst t. rewrite HW, HH. split; intros Hp Hn; by apply clampTarget_bounds.
Qed.

(** The example of the specification: an override of 200x200 on a 150x150
    image is planned at 150x150, without a resize. *)
Lemma override_target_example :
  let t := planTask badge_stat badge_image (JS.num 10) in
  t ∈ calculateOptimizationTargets [badge_stat]
        [("ui/badge"%string, badge_image)] (Some (JS.num 10)) ∧
  targetWidth t = JS.num 150 ∧ targetHeight t = JS.num 150 ∧ isResize t = false ∧
  JS.le (targetWidth t) (physicalW badge_image) = true ∧
  JS.le (targetHeight t) (physicalH badge_image) = true.
Proof.
  destruct (override_target [badge_stat] [("ui/badge"%string, badge_image)]
              (Some (JS.num 10)) "ui/badge" badge_image badge_stat)
    as (Hin & HW & HH & _ & HleW & HleH).
  - apply list_elem_of_singleton. reflexivity.
  - vm_compute. reflexivity.
  - reflexivity.
  - split; [exact Hin|].
    split; [by vm_compute|]. split; [by vm_compute|]. split; [by vm_compute|].
    split; [apply HleW|apply HleH]; by vm_compute.
Defined.

(** C3, as stated, fails: for an image whose recorded physical size is 0x0
    the task has target 1x1 and original 0x0, so the target exceeds the
    original. *)
Lemma task_invariant_counterexample :
  ∃ t, calculateOptimizationTargets [unread_stat]
         [("fx/unread"%string, unread_fx_image)] None = [t] ∧
       targetWidth t = JS.num 1 ∧ originalWidth t = JS.num 0 ∧
       JS.le (targetWidth t) (originalWidth t) = false ∧
       ¬ task_invariant t.
Proof.
  eexists. split; [by vm_compute|]. split; [done|]. split; [done|].
  split; [done|]. intros [(_ & H & _) _]. by vm_compute in H.
Qed.

Lemma planTask_resize_flag stat original b :
  resize_flag_exact (planTask stat original b).
Proof. unfold resize_flag_exact. simpl. by rewrite orb_true_iff. Qed.

Lemma planTask_within_bounds stat original b :
  JS.le (JS.num 1) (physicalW original) = true →
  JS.le (JS.num 1) (physicalH original) = true →
  JS.isNaN (calculatedW stat b) = false →
  JS.isNaN (calculatedH stat b) = false →
  within_bounds (planTask stat original b).
Proof.
  intros HpW HpH HcW HcH. unfold within_bounds. simpl.
  destruct (clampTarget_bounds _ _ HpW HcW), (clampTarget_bounds _ _ HpH HcH).
  done.
Qed.

(** A target within the bounds forces a physical size of at least 1 and a
    required size that is a number. *)
Lemma clampTarget_bounds_inv (calculated physical : JS.number) :
  JS.le (JS.num 1) (clampTarget calculated physical) = true →
  JS.le (clampTarget calculated physical) physical = true →
  JS.le (JS.num 1) physical = true ∧ JS.isNaN calculated = false.
Proof.
  intros H1 Hp. split; [by apply (le_transitive _ (clampTarget calculated physical))|].
  by destruct calculated.
Qed.

Lemma planTask_within_bounds_iff stat original b :
  within_bounds (planTask stat original b) ↔
  JS.le (JS.num 1) (physicalW original) = true ∧
  JS.le (JS.num 1) (physicalH original) = true ∧
  JS.isNaN (calculatedW stat b) = false ∧
  JS.isNaN (calculatedH stat b) = false.
Proof.
  split.
  - unfold within_bounds. simpl. intros (HW1 & HWp & HH1 & HHp).
    destruct (clampTarget_bounds_inv _ _ HW1 HWp), (clampTarget_bounds_inv _ _ HH1 HHp).
    done.
  - intros (HpW & HpH & HcW & HcH). by apply planTask_within_bounds.
Qed.

(** C3 (amended): in every produced task [isResize] holds exactly when the
    target differs from the original on some axis.  Every produced task is
    the task planned for a loaded image and its stat, and it satisfies
    [1 <= target <= original] on both axes exactly when its own original
    (physical) dimensions are at least 1 and its required dimensions are
    not NaN, whatever the other loaded images and stats are.  The required
    dimensions are not NaN when the buffer is a number and the sizes of the
    task's stat are finite and not zero.  Every loaded image with a stat has
    its task in the result. *)
Theorem produced_task_invariant stats loaded b :
  let buffer := JS.nullish b (JS.num 0) in
  Forall resize_flag_exact (calculateOptimizationTargets stats loaded b) ∧
  (∀ t, t ∈ calculateOptimizationTargets stats loaded b →
     ∃ key original stat,
       (key, original) ∈ loaded ∧ buildStatsMap stats !! key = Some stat ∧
       t = planTask stat original buffer ∧
       (task_invariant t ↔
          JS.le (JS.num 1) (originalWidth t) = true ∧
          JS.le (JS.num 1) (originalHeight t) = true ∧
          JS.isNaN (calculatedW stat buffer) = false ∧
          JS.isNaN (calculatedH stat buffer) = false) ∧
       (finite_nonzero (maxRenderWidth stat) →
        finite_nonzero (maxRenderHeight stat) →
        JS.isNaN buffer = false →
        JS.le (JS.num 1) (originalWidth t) = true →
        JS.le (JS.num 1) (originalHeight t) = true →
        task_invariant t)) ∧
  (∀ key original stat,
     (key, original) ∈ loaded → buildStatsMap stats !! key = Some stat →
     planTask stat original buffer ∈ calculateOptimizationTargets stats loaded b).
Proof.
  intros buffer.
  assert (∀ stat original,
            task_invariant (planTask stat original buffer) ↔
            JS.le (JS.num 1) (physicalW original) = true ∧
            JS.le (JS.num 1) (physicalH original) = true ∧
            JS.isNaN (calculatedW stat buffer) = false ∧
            JS.isNaN (calculatedH stat buffer) = false) as Hiff.
  { intros stat original. rewrite <- planTask_within_bounds_iff.
    unfold task_invariant. split; [by intros [? _]|].
    intros Hb. split; [done|apply planTask_resize_flag]. }
  split; [|split].
  - apply Forall_forall.
    intros t (key & original & stat & _ & _ & ->)%elem_of_calculateOptimizationTargets.
    apply planTask_resize_flag.
  - intros t (key & original & stat & Hin & Hs & ->)%elem_of_calculateOptimizationTargets.
    exists key, original, stat. split; [done|]. split; [done|]. split; [done|].
    split; [apply Hiff|].
    intros HfW HfH Hb HpW HpH. apply Hiff.
    destruct (calculated_not_NaN stat buffer) as [HcW HcH]; done.
  - intros key original stat Hin Hs.
    apply elem_of_calculateOptimizationTargets. eauto 10.
Qed.

(** Two planned tasks, both within the bounds. *)
Lemma produced_task_invariant_example :
  Forall task_invariant
    (calculateOptimizationTargets [hero_stat; badge_stat]
       [("ui/badge"%string, badge_image); ("characters/hero"%string, hero_image)]
       (Some (JS.num 10))).
Proof.
  destruct (produced_task_invariant [hero_stat; badge_stat]
              [("ui/badge"%string, badge_image); ("characters/hero"%string, hero_image)]
              (Some (JS.num 10))) as (_ & Htasks & _).
  apply Forall_forall. intros t Ht.
  destruct (Htasks t Ht) as (key & original & stat & Hin & Hs & -> & Hiff & _).
  apply Hiff.
  apply elem_of_cons in Hin as [Heq|Hin].
  - injection Heq as -> ->. vm_compute in Hs. injection Hs as <-.
    repeat split; by vm_compute.
  - apply elem_of_cons in Hin as [Heq|Hin]; [|by apply elem_of_nil in Hin].
    injection Heq as -> ->. vm_compute in Hs. injection Hs as <-.
    repeat split; by vm_compute.
Defined.

End ResizePolicy.

(** ** Which tasks are produced, and in which order *)

Section Selection.
Import Plan Samples.

Lemma keyedTasks_tasks stats loaded b :
  (keyedTasks stats loaded b).*2 = pushedTasks stats loaded b.
Proof.
  unfold keyedTasks. rewrite foldl_visitKeyed, pushedTasks_omap, app_nil_l.
  induction loaded as [|entry loaded IH]; [done|]. cbn [omap list_omap].
  destruct (planEntry (buildStatsMap stats) b entry); cbn; by rewrite <- IH.
Qed.

Lemma keyedTasks_keys stats loaded b :
  (keyedTasks stats loaded b).*1
  = filter (λ key, key ∈ lookupKey <$> stats) loaded.*1.
Proof.
  unfold keyedTasks. rewrite foldl_visitKeyed, app_nil_l.
  induction loaded as [|[key original] loaded IH]; [done|]. cbn [omap list_omap].
  unfold planEntry at 1. cbn [fst snd].
  destruct (buildStatsMap stats !! key) as [stat|] eqn:Hs; cbn [fmap option_fmap option_map list_fmap fst].
  - rewrite filter_cons_True, IH; [done|].
    apply buildStatsMap_dom. by rewrite Hs.
  - rewrite filter_cons_False, IH; [done|].
    rewrite <- buildStatsMap_dom, Hs. by intros [? ?].
Qed.

Lemma Array_sort_Permutation (l : list OptimizationTask) :
  Array_sort compareTasks l ≡ₚ l.
Proof.
  rewrite Array_sort_partition.
  rewrite (list_filter_iff (λ t, isResize t = false) (λ t, ¬ isResize t = true)).
  - apply filter_app_complement.
  - intros t. by destruct (isResize t).
Qed.

(** C5: the tasks are pushed for exactly the loaded images whose key is a
    key of the stats list.  Labelling each pushed task with the key of its
    loaded image: the result is a rearrangement of the labelled tasks, their
    keys are the loaded keys found among the stats, in order, and do not
    depend on the buffer; a loaded image without a stat has no task. *)
Theorem unreferenced_images_excluded stats loaded b :
  let keyed := keyedTasks stats loaded (JS.nullish b (JS.num 0)) in
  calculateOptimizationTargets stats loaded b ≡ₚ keyed.*2 ∧
  keyed.*1 = filter (λ key, key ∈ lookupKey <$> stats) loaded.*1 ∧
  list_to_set keyed.*1
    =@{gset string} list_to_set loaded.*1 ∩ dom (buildStatsMap stats) ∧
  (∀ b', (keyedTasks stats loaded b').*1 = keyed.*1) ∧
  (∀ key original, (key, original) ∈ loaded →
     buildStatsMap stats !! key = None →
     (key ∉ keyed.*1) ∧
     Plan.planEntry (buildStatsMap stats) (JS.nullish b (JS.num 0)) (key, original) = None).
Proof.
  intros keyed. subst keyed. split; [|split; [|split; [|split]]].
  - rewrite keyedTasks_tasks. apply Array_sort_Permutation.
  - apply keyedTasks_keys.
  - rewrite keyedTasks_keys. apply set_eq. intros key.
    rewrite elem_of_intersection, !elem_of_list_to_set, list_elem_of_filter.
    rewrite elem_of_dom, buildStatsMap_dom. tauto.
  - intros b'. by rewrite !keyedTasks_keys.
  - intros key original Hin Hs. split.
    + rewrite keyedTasks_keys, list_elem_of_filter, <- buildStatsMap_dom, Hs.
      by intros [[? ?] _].
    + unfold planEntry. simpl. by rewrite Hs.
Qed.

(** Of two loaded images, only the one with a stat is planned. *)
Lemma unreferenced_images_excluded_example :
  let loaded := [("ui/badge"%string, badge_image); ("characters/hero"%string, hero_image)] in
  ("ui/badge"%string ∉ (keyedTasks [hero_stat] loaded (JS.num 0)).*1) ∧
  planEntry (buildStatsMap [hero_stat]) (JS.num 0) ("ui/badge"%string, badge_image) = None.
Proof.
  intros loaded.
  destruct (unreferenced_images_excluded [hero_stat] loaded None) as (_ & _ & _ & _ & H).
  apply (H "ui/badge"%string badge_image).
  - apply elem_of_cons. by left.
  - by vm_compute.
Defined.

Lemma partition_order (resized kept : list OptimizationTask) i j t1 t2 :
  Forall (λ t, isResize t = true) resized →
  Forall (λ t, isResize t = false) kept →
  (resized ++ kept) !! i = Some t1 → (resized ++ kept) !! j = Some t2 →
  isResize t1 = true → isResize t2 = false → (i < j)%nat.
Proof.
  intros Hr Hk Hi Hj H1 H2.
  apply lookup_app_Some in Hi as [Hi|[Hlen Hi]].
  - apply lookup_app_Some in Hj as [Hj|[Hlen Hj]].
    + apply list_elem_of_lookup_2 in Hj.
      rewrite Forall_forall in Hr. specialize (Hr _ Hj). congruence.
    + apply lookup_lt_Some in Hi. lia.
  - apply list_elem_of_lookup_2 in Hi.
    rewrite Forall_forall in Hk. specialize (Hk _ Hi). congruence.
Qed.

(** C6: the returned list is the stable partition of the tasks in the
    order the loaded images are visited: the resized ones, then the others,
    each group in visiting order; so a resized task always comes before one
    that is not.  In particular four tasks flagged false, true, false, true
    come out second, fourth, first, third. *)
Theorem resized_first_stable stats loaded b :
  let pushed :=
    omap (planEntry (buildStatsMap stats) (JS.nullish b (JS.num 0))) loaded in
  calculateOptimizationTargets stats loaded b
  = filter (λ t, isResize t = true) pushed ++ filter (λ t, isResize t = false) pushed ∧
  (∀ i j t1 t2,
     calculateOptimizationTargets stats loaded b !! i = Some t1 →
     calculateOptimizationTargets stats loaded b !! j = Some t2 →
     isResize t1 = true → isResize t2 = false → (i < j)%nat) ∧
  (∀ R1 R2 R3 R4,
     isResize R1 = false → isResize R2 = true →
     isResize R3 = false → isResize R4 = true →
     Array_sort compareTasks [R1; R2; R3; R4] = [R2; R4; R1; R3]).
Proof.
  intros pushed.
  assert (calculateOptimizationTargets stats loaded b
          = filter (λ t, isResize t = true) pushed
              ++ filter (λ t, isResize t = false) pushed) as Heq.
  { unfold calculateOptimizationTargets.
    by rewrite Array_sort_partition, pushedTasks_omap. }
  split; [exact Heq|]. split.
  - rewrite Heq. intros i j t1 t2. apply partition_order.
    + apply Forall_forall. by intros t [? ?]%list_elem_of_filter.
    + apply Forall_forall. by intros t [? ?]%list_elem_of_filter.
  - intros R1 R2 R3 R4 H1 H2 H3 H4. rewrite Array_sort_partition.
    repeat (first [rewrite filter_cons_True by congruence
                  |rewrite filter_cons_False by congruence]).
    done.
Qed.

(** Four loaded images, of which the second and fourth need a resize. *)
Lemma resized_first_stable_example :
  let stats := [stat "r1" 64 64 false; stat "r2" 32 32 false;
                stat "r3" 64 64 false; stat "r4" 16 16 false] in
  let loaded := [("r1"%string, image "R1.png" 64 64); ("r2"%string, image "R2.png" 64 64);
                 ("r3"%string, image "R3.png" 64 64); ("r4"%string, image "R4.png" 64 64)] in
  (relativePath <$> pushedTasks stats loaded (JS.num 0), 
   isResize <$> pushedTasks stats loaded (JS.num 0))
  = (["R1.png"; "R2.png"; "R3.png"; "R4.png"]%string, [false; true; false; true]) ∧
  relativePath <$> calculateOptimizationTargets stats loaded None
  = ["R2.png"; "R4.png"; "R1.png"; "R3.png"]%string.
Proof.
  intros stats loaded. split; [by vm_compute|].
  destruct (resized_first_stable stats loaded None) as (_ & _ & H).
  unfold calculateOptimizationTargets.
  assert (∃ R1 R2 R3 R4, pushedTasks stats loaded (JS.nullish None (JS.num 0)) = [R1; R2; R3; R4]
            ∧ (isResize R1 = false ∧ isResize R2 = true ∧ isResize R3 = false ∧ isResize R4 = true)
            ∧ relativePath <$> [R2; R4; R1; R3] = ["R2.png"; "R4.png"; "R1.png"; "R3.png"]%string)
    as (R1 & R2 & R3 & R4 & -> & (H1 & H2 & H3 & H4) & Hp).
  { do 4 eexists. split; [by vm_compute|]. by vm_compute. }
  by rewrite (H R1 R2 R3 R4 H1 H2 H3 H4).
Defined.

(** C10: each produced task comes from a loaded image with a stat, and its
    original size is that image's [sourceWidth] and [sourceHeight] where
    defined, its [width] and [height] otherwise; the cap and the resize
    flag use the same values.  Conversely every loaded image with a stat
    has such a task. *)
Theorem physical_size_reported stats loaded b :
  let buffer := JS.nullish b (JS.num 0) in
  (∀ t, t ∈ calculateOptimizationTargets stats loaded b →
     ∃ key original stat,
       (key, original) ∈ loaded ∧ buildStatsMap stats !! key = Some stat ∧
       t = planTask stat original buffer) ∧
  (∀ key original stat,
     (key, original) ∈ loaded → buildStatsMap stats !! key = Some stat →
     let t := planTask stat original buffer in
     let physW := default (width original) (sourceWidth original) in
     let physH := default (height original) (sourceHeight original) in
     t ∈ calculateOptimizationTargets stats loaded b ∧
     originalWidth t = physW ∧ originalHeight t = physH ∧
     (∀ w, sourceWidth original = Some w → originalWidth t = w) ∧
     (sourceWidth original = None → originalWidth t = width original) ∧
     (∀ h, sourceHeight original = Some h → originalHeight t = h) ∧
     (sourceHeight original = None → originalHeight t = height original) ∧
     targetWidth t = JS.Math_max (JS.num 1) (JS.Math_min (calculatedW stat buffer) physW) ∧
     targetHeight t = JS.Math_max (JS.num 1) (JS.Math_min (calculatedH stat buffer) physH) ∧
     isResize t = JS.strict_neq (targetWidth t) physW || JS.strict_neq (targetHeight t) physH).
Proof.
  intros buffer. split.
  - intros t Ht. by apply elem_of_calculateOptimizationTargets.
  - intros key original stat Hin Hs t physW physH.
    split; [apply elem_of_calculateOptimizationTargets; eauto 10|].
    split; [done|]. split; [done|].
    split; [intros w Hw; simpl; unfold physicalW; by rewrite Hw|].
    split; [intros Hw; simpl; unfold physicalW; by rewrite Hw|].
    split; [intros h Hh; simpl; unfold physicalH; by rewrite Hh|].
    split; [intros Hh; simpl; unfold physicalH; by rewrite Hh|].
    done.
Qed.

(** An image with only a canonical size of 150x150 is reported, capped and
    compared at 150x150. *)
Lemma physical_size_reported_example :
  let t := planTask badge_stat (bare_image "ui/badge.png" 150 150) (JS.num 0) in
  t ∈ calculateOptimizationTargets [badge_stat]
        [("ui/badge"%string, bare_image "ui/badge.png" 150 150)] None ∧
  originalWidth t = JS.num 150 ∧ originalHeight t = JS.num 150 ∧
  targetWidth t = JS.num 150 ∧ isResize t = false.
Proof.
  destruct (physical_size_reported [badge_stat]
              [("ui/badge"%string, bare_image "ui/badge.png" 150 150)] None) as [_ H].
  destruct (H "ui/badge"%string (bare_image "ui/badge.png" 150 150) badge_stat)
    as (Hin & _ & _ & _ & HW & _ & HH & _).
  - apply list_elem_of_singleton. reflexivity.
  - by vm_compute.
  - split; [exact Hin|]. split; [by apply HW|]. split; [by apply HH|]. by vm_compute.
Defined.

End Selection.

(** ** Output file names *)

Section FileNames.
Import Plan JSString.

Lemma string_app_nil (s : string) : EmptyString +:+ s = s.
Proof. reflexivity. Qed.

Lemma string_app_cons a (s1 s2 : string) : String a s1 +:+ s2 = String a (s1 +:+ s2).
Proof. reflexivity. Qed.

(** Appending is kept folded by [simpl]: these two equations unfold it. *)
Local Ltac app_steps := rewrite ?string_app_cons, ?string_app_nil.

Lemma string_app_assoc (s1 s2 s3 : string) : (s1 +:+ s2) +:+ s3 = s1 +:+ (s2 +:+ s3).
Proof. induction s1 as [|a s1 IH]; app_steps; [done|]. by rewrite IH. Qed.

Lemma contains_cons c a s :
  contains c (String a s) = Ascii.eqb a c || contains c s.
Proof. reflexivity. Qed.

Lemma contains_app c s1 s2 : contains c (s1 +:+ s2) = contains c s1 || contains c s2.
Proof.
  induction s1 as [|a s1 IH]; app_steps; simpl; [done|]. by rewrite IH, orb_assoc.
Qed.

(** A string containing [c] splits at the last occurrence. *)
Lemma contains_split_last c s :
  contains c s = true →
  ∃ pre post, s = pre +:+ String c post ∧ contains c post = false.
Proof.
  induction s as [|a s IH]; simpl; [done|].
  destruct (contains c s) eqn:Hs.
  - intros _. destruct IH as (pre & post & -> & Hpost); [done|].
    by exists (String a pre), post.
  - rewrite orb_false_r. intros ->%Ascii.eqb_eq. by exists EmptyString, s.
Qed.

Lemma lastIndexOf_from_app s1 s2 c i found :
  lastIndexOf_from (s1 +:+ s2) c i found
  = lastIndexOf_from s2 c (i + Z.of_nat (String.length s1)) (lastIndexOf_from s1 c i found).
Proof.
  revert i found. induction s1 as [|a s1 IH]; intros i found;
    app_steps; simpl String.length.
  - simpl. by rewrite Z.add_0_r.
  - simpl lastIndexOf_from. rewrite IH. f_equal. lia.
Qed.

Lemma lastIndexOf_from_absent s c i found :
  contains c s = false → lastIndexOf_from s c i found = found.
Proof.
  revert i found. induction s as [|a s IH]; intros i found; simpl; [done|].
  intros [Ha Hs]%orb_false_elim. by rewrite Ha, IH.
Qed.

Lemma lastIndexOf_from_range s c i found :
  found < i →
  found ≤ lastIndexOf_from s c i found < i + Z.of_nat (String.length s)
  ∨ lastIndexOf_from s c i found = found.
Proof.
  revert i found. induction s as [|a s IH]; intros i found Hlt; simpl String.length.
  - by right.
  - simpl lastIndexOf_from. destruct (Ascii.eqb a c).
    + destruct (IH (i + 1) i) as [H|H]; lia.
    + destruct (IH (i + 1) found) as [H|H]; lia.
Qed.

Lemma lastIndexOf_lt_length s c : lastIndexOf s c < Z.of_nat (String.length s).
Proof.
  unfold lastIndexOf. destruct (lastIndexOf_from_range s c 0 (-1)); lia.
Qed.

(** The index of the last [c] in [pre c post], when [post] has none. *)
Lemma lastIndexOf_last pre post c :
  contains c post = false →
  lastIndexOf (pre +:+ String c post) c = Z.of_nat (String.length pre).
Proof.
  intros Hpost. unfold lastIndexOf. rewrite lastIndexOf_from_app. simpl.
  rewrite Ascii.eqb_refl. by rewrite lastIndexOf_from_absent.
Qed.

(** [c] occurs in neither the separator-free tail: the last index lies in
    the front part. *)
Lemma lastIndexOf_front pre post c :
  contains c post = false →
  lastIndexOf (pre +:+ post) c < Z.of_nat (String.length pre).
Proof.
  intros Hpost. unfold lastIndexOf. rewrite lastIndexOf_from_app.
  rewrite lastIndexOf_from_absent by done. apply lastIndexOf_lt_length.
Qed.

Lemma lastIndexOf_at_least pre post c :
  Z.of_nat (String.length pre) ≤ lastIndexOf (pre +:+ String c post) c.
Proof.
  unfold lastIndexOf. rewrite lastIndexOf_from_app. simpl.
  rewrite Ascii.eqb_refl.
  destruct (lastIndexOf_from_range post c (0 + Z.of_nat (String.length pre) + 1)
              (0 + Z.of_nat (String.length pre))); lia.
Qed.

Lemma string_length_app (s1 s2 : string) :
  String.length (s1 +:+ s2) = (String.length s1 + String.length s2)%nat.
Proof. induction s1 as [|a s1 IH]; app_steps; simpl; [done|]. by rewrite IH. Qed.

Lemma substring_prefix (s1 s2 : string) :
  substring (s1 +:+ s2) 0 (Z.of_nat (String.length s1)) = s1.
Proof.
  unfold substring. rewrite string_length_app.
  replace (Z.min (Z.max 0 0) _) with 0 by lia.
  replace (Z.min (Z.max (Z.of_nat (String.length s1)) 0) _)
    with (Z.of_nat (String.length s1)) by lia.
  replace (Z.to_nat (Z.min 0 _)) with 0%nat by lia.
  replace (Z.to_nat (Z.max 0 (Z.of_nat (String.length s1)) - Z.min 0 _))
    with (String.length s1) by lia.
  induction s1 as [|a s1 IH]; app_steps; simpl; [by destruct s2|]. by rewrite IH.
Qed.

Lemma outputFileName_strip path stem ext :
  has_extension path stem ext → outputFileName path = stem +:+ ".png".
Proof.
  intros (-> & Hdot & Hslash & Hback). unfold outputFileName.
  change ("." +:+ ext) with (String "." ext).
  assert (∀ c, c ≠ "."%char → contains c ext = false →
            lastIndexOf (stem +:+ String "." ext) c < Z.of_nat (String.length stem)) as Hsep.
  { intros c Hc Hext. apply lastIndexOf_front.
    rewrite contains_cons, Hext, orb_false_r. apply Ascii.eqb_neq. congruence. }
  rewrite (lastIndexOf_last stem ext "."%char Hdot).
  pose proof (Hsep "/"%char ltac:(done) Hslash).
  pose proof (Hsep "\"%char ltac:(done) Hback).
  destruct (Z.ltb_spec
              (Z.max (lastIndexOf (stem +:+ String "." ext) "/")
                     (lastIndexOf (stem +:+ String "." ext) "\"))
              (Z.of_nat (String.length stem))); [|lia].
  by rewrite substring_prefix.
Qed.

Lemma outputFileName_keep path :
  no_extension path → outputFileName path = path +:+ ".png".
Proof.
  intros (dir & name & -> & Hdot & Hdir). unfold outputFileName.
  pose proof (lastIndexOf_front dir name "."%char Hdot) as Hlast.
  destruct (Z.ltb_spec
              (Z.max (lastIndexOf (dir +:+ name) "/") (lastIndexOf (dir +:+ name) "\"))
              (lastIndexOf (dir +:+ name) ".")) as [Hlt|]; [|done].
  exfalso. destruct Hdir as [->|[d [->| ->]]].
  - rewrite string_app_nil in Hlt. unfold lastIndexOf in Hlt at 3.
    rewrite lastIndexOf_from_absent in Hlt by done.
    unfold lastIndexOf in Hlt.
    destruct (lastIndexOf_from_range name "/" 0 (-1)); lia.
  - rewrite string_length_app in Hlast. simpl String.length in Hlast.
    rewrite string_app_assoc in Hlt, Hlast.
    change ("/" +:+ name) with (String "/" name) in *.
    pose proof (lastIndexOf_at_least d name "/"%char). lia.
  - rewrite string_length_app in Hlast. simpl String.length in Hlast.
    rewrite string_app_assoc in Hlt, Hlast.
    change ("\" +:+ name) with (String "\" name) in *.
    pose proof (lastIndexOf_at_least d name "\"%char). lia.
Qed.

Lemma extension_cases path :
  (∃ stem ext, has_extension path stem ext) ∨ no_extension path.
Proof.
  destruct (contains "." path) eqn:Hdot.
  - apply contains_split_last in Hdot as (pre & post & -> & Hpost).
    destruct (contains "/" post) eqn:Hslash.
    { right. apply contains_split_last in Hslash as (p1 & p2 & -> & Hp2).
      exists (pre +:+ "." +:+ p1 +:+ "/"), p2. split; [|split].
      - rewrite !string_app_assoc. by app_steps.
      - rewrite contains_app in Hpost. simpl in Hpost.
        by apply orb_false_elim in Hpost as [_ ?].
      - right. exists (pre +:+ "." +:+ p1). left. by rewrite !string_app_assoc. }
    destruct (contains "\" post) eqn:Hback.
    { right. apply contains_split_last in Hback as (p1 & p2 & -> & Hp2).
      exists (pre +:+ "." +:+ p1 +:+ "\"), p2. split; [|split].
      - rewrite !string_app_assoc. by app_steps.
      - rewrite contains_app in Hpost. simpl in Hpost.
        by apply orb_false_elim in Hpost as [_ ?].
      - right. exists (pre +:+ "." +:+ p1). right. by rewrite !string_app_assoc. }
    left. by exists pre, post.
  - right. exists EmptyString, path. auto.
Qed.

(** The names of the pushed tasks are the output names of the paths of the
    loaded images that have a stat, in order. *)
Lemma pushedTasks_fileNames stats loaded b :
  fileName <$> pushedTasks stats loaded b
  = (λ entry, outputFileName (originalPath entry.2))
      <$> filter (λ entry, is_Some (buildStatsMap stats !! entry.1)) loaded.
Proof.
  rewrite pushedTasks_omap.
  induction loaded as [|[key original] loaded IH]; [done|].
  cbn [omap list_omap]. unfold planEntry at 1. simpl.
  destruct (buildStatsMap stats !! key) as [stat|] eqn:Hs.
  - rewrite filter_cons_True by (simpl; by rewrite Hs).
    rewrite !fmap_cons. by rewrite IH.
  - rewrite filter_cons_False; [done|]. simpl. rewrite Hs. by intros [? ?].
Qed.

(** C7: the file names of the produced tasks are the output names of the
    original paths of the loaded images that have a stat, one for each such
    image: every such image has a task with its path, its bytes and the
    output name of its path, and every task is such a task.  The output
    name of a path is derived as follows: a path [stem.ext] whose extension
    contains no dot and no separator gives [stem.png]; a path with no dot
    after its last separator gives the path followed by [.png]; every path
    is of one of these two forms. *)
Theorem output_file_name :
  (∀ stats loaded b,
     fileName <$> calculateOptimizationTargets stats loaded b
     ≡ₚ (λ entry, outputFileName (originalPath entry.2))
          <$> filter (λ entry, is_Some (buildStatsMap stats !! entry.1)) loaded) ∧
  (∀ stats loaded b key original,
     (key, original) ∈ loaded → is_Some (buildStatsMap stats !! key) →
     ∃ t, t ∈ calculateOptimizationTargets stats loaded b ∧
          relativePath t = originalPath original ∧ blob t = file original ∧
          fileName t = outputFileName (originalPath original)) ∧
  (∀ stats loaded b t,
     t ∈ calculateOptimizationTargets stats loaded b →
     fileName t = outputFileName (relativePath t) ∧
     ∃ key original,
       (key, original) ∈ loaded ∧ is_Some (buildStatsMap stats !! key) ∧
       relativePath t = originalPath original ∧ blob t = file original ∧
       fileName t = outputFileName (originalPath original)) ∧
  (∀ path stem ext,
     has_extension path stem ext → outputFileName path = stem +:+ ".png") ∧
  (∀ path, no_extension path → outputFileName path = path +:+ ".png") ∧
  (∀ path, (∃ stem ext, has_extension path stem ext) ∨ no_extension path).
Proof.
  split; [|split; [|split; [|split; [|split]]]].
  - intros stats loaded b. unfold calculateOptimizationTargets.
    by rewrite Array_sort_Permutation, pushedTasks_fileNames.
  - intros stats loaded b key original Hin [stat Hs].
    exists (planTask stat original (JS.nullish b (JS.num 0))).
    split; [apply elem_of_calculateOptimizationTargets; eauto 10|done].
  - intros stats loaded b t
      (key & original & stat & Hin & Hs & ->)%elem_of_calculateOptimizationTargets.
    split; [done|]. exists key, original. by rewrite Hs.
  - apply outputFileName_strip.
  - apply outputFileName_keep.
  - apply extension_cases.
Qed.

(** The examples of the specification, and the name of the task planned
    for an image loaded from [characters/hero.png]. *)
Lemma output_file_name_examples :
  outputFileName "characters/hero.png" = "characters/hero.png"%string ∧
  outputFileName "a.b/c" = "a.b/c.png"%string ∧
  outputFileName "a.b/c" ≠ "a.c.png"%string ∧
  fileName <$> calculateOptimizationTargets [Samples.hero_stat]
                 [("characters/hero"%string, Samples.hero_image)] None
  ≡ₚ ["characters/hero.png"%string].
Proof.
  destruct output_file_name as (Hnames & _ & _ & Hstrip & Hkeep & _).
  assert (outputFileName "a.b/c" = "a.b/c.png"%string) as Hc.
  { apply (Hkeep "a.b/c"%string). exists "a.b/"%string, "c"%string.
    split; [reflexivity|]. split; [reflexivity|].
    right. exists "a.b"%string. left. reflexivity. }
  assert (outputFileName "characters/hero.png" = "characters/hero.png"%string) as Hh.
  { apply (Hstrip "characters/hero.png"%string "characters/hero"%string "png"%string).
    repeat split; reflexivity. }
  split; [exact Hh|]. split; [exact Hc|]. split.
  - rewrite Hc. discriminate.
  - apply (Hnames [Samples.hero_stat]
             [("characters/hero"%string, Samples.hero_image)] None).
Defined.

(** Further paths: a hidden file, several dots, a backslash separator, no
    dot at all. *)
Example output_file_name_more :
  outputFileName ".hidden" = ".png"%string ∧
  outputFileName "a/b.c.d" = "a/b.c.png"%string ∧
  outputFileName "dir.v2\arm.jpeg" = "dir.v2\arm.png"%string ∧
  outputFileName "dir.v2\arm" = "dir.v2\arm.png"%string ∧
  outputFileName "arm" = "arm.png"%string.
Proof. repeat split. Qed.

End FileNames.

(** ** Packaging *)

Section Packaging.
Import Plan Samples.

Variable env : Optimizer.Browser.

Let root : string := "images_optimized/".

Lemma generateOptimizedZip_fold tasks :
  generateOptimizedZip env tasks
  = let final := foldl (zipTask env root (Z.of_nat (length tasks)))
                   {| zipFiles := ∅; completed := 0; progressCalls := [] |} tasks in
    (zipFiles final, progressCalls final).
Proof. reflexivity. Qed.

Lemma zipTask_files total st tasks :
  zipFiles (foldl (zipTask env root total) st tasks)
  = foldl (λ files t, <[root +:+ fileName t := entryData env t]> files)
      (zipFiles st) tasks.
Proof. revert st. induction tasks as [|t tasks IH]; intros st; simpl; [done|]. by rewrite IH. Qed.

Lemma zipTask_progress total st tasks :
  completed (foldl (zipTask env root total) st tasks)
  = completed st + Z.of_nat (length tasks) ∧
  progressCalls (foldl (zipTask env root total) st tasks)
  = progressCalls st
    ++ ((λ k, (completed st + Z.of_nat k, total)) <$> seq 1 (length tasks)).
Proof.
  revert st. induction tasks as [|t tasks IH]; intros st; simpl.
  - split; [lia|by rewrite app_nil_r].
  - destruct (IH (zipTask env root total st t)) as [-> ->]. simpl.
    split; [lia|]. rewrite <- app_assoc. f_equal.
    rewrite <- (fmap_S_seq 1), <- list_fmap_compose. simpl. f_equal.
    apply list_fmap_ext. intros _ k _. simpl. f_equal. lia.
Qed.

Lemma written_snoc tasks t :
  written env (tasks ++ [t])
  = <[root +:+ fileName t := entryData env t]> (written env tasks).
Proof. unfold written. by rewrite foldl_app. Qed.

Lemma root_inj (a b : string) : root +:+ a = root +:+ b → a = b.
Proof. apply String.app_inj. Qed.

(** Every entry of the archive is the entry of some task. *)
Lemma written_origin tasks name data :
  written env tasks !! name = Some data →
  ∃ t, t ∈ tasks ∧ name = root +:+ fileName t ∧ data = entryData env t.
Proof.
  induction tasks as [|t tasks IH] using rev_ind.
  - unfold written. simpl. by rewrite lookup_empty.
  - rewrite written_snoc. intros [[<- <-]|[Hne Hl]]%lookup_insert_Some.
    + exists t. split; [|done]. apply elem_of_app. right. by apply list_elem_of_singleton.
    + destruct (IH Hl) as (t' & Hin & Hn & Hd). exists t'.
      split; [|done]. apply elem_of_app. by left.
Qed.

(** Every task has an entry at its name, written by the last task of that name. *)
Lemma written_present tasks t :
  t ∈ tasks →
  ∃ t', t' ∈ tasks ∧ fileName t' = fileName t ∧
        written env tasks !! (root +:+ fileName t) = Some (entryData env t').
Proof.
  induction tasks as [|x tasks IH] using rev_ind; [by intros ?%elem_of_nil|].
  intros Hin. rewrite written_snoc.
  destruct (decide (fileName x = fileName t)) as [Heq|Hne].
  - exists x. split; [apply elem_of_app; right; by apply list_elem_of_singleton|].
    split; [done|]. rewrite Heq. apply lookup_insert_eq.
  - apply elem_of_app in Hin as [Hin|Hin%list_elem_of_singleton]; [|congruence].
    destruct (IH Hin) as (t' & Hin' & Hn & Hl). exists t'.
    split; [apply elem_of_app; by left|]. split; [done|].
    rewrite lookup_insert_ne; [done|]. by intros ?%root_inj.
Qed.

(** With distinct names, every task keeps its own entry. *)
Lemma written_own tasks t :
  NoDup (fileName <$> tasks) → t ∈ tasks →
  written env tasks !! (root +:+ fileName t) = Some (entryData env t).
Proof.
  intros Hnd Hin. destruct (written_present tasks t Hin) as (t' & Hin' & Hn & ->).
  f_equal. f_equal.
  apply list_elem_of_lookup in Hin as [i Hi], Hin' as [j Hj].
  assert (i = j) as ->; [|congruence].
  apply (NoDup_lookup _ _ _ (fileName t) Hnd); rewrite list_lookup_fmap.
  - by rewrite Hi.
  - rewrite Hj. simpl. by rewrite Hn.
Qed.

Lemma written_size tasks :
  NoDup (fileName <$> tasks) → size (written env tasks) = length tasks.
Proof.
  induction tasks as [|x tasks IH] using rev_ind; [done|].
  rewrite fmap_app, written_snoc, length_app. simpl.
  intros (Hnd & Hx & _)%NoDup_app.
  assert (written env tasks !! (root +:+ fileName x) = None) as Hfresh.
  { destruct (written env tasks !! (root +:+ fileName x)) as [data|] eqn:Hl; [|done].
    apply written_origin in Hl as (t & Hin & Heq & _). apply root_inj in Heq.
    exfalso. apply (Hx (fileName t)); [by apply list_elem_of_fmap_2|].
    rewrite <- Heq. by left. }
  rewrite map_size_insert_None, IH by done. lia.
Qed.

End Packaging.

(** *** The entries of the archive *)

Section ArchiveEntries.
Import Plan Samples.

Lemma size_distinct_names (names : list string) :
  (size (list_to_set names : gset string) ≤ length names)%nat ∧
  (size (list_to_set names : gset string) = length names ↔ NoDup names).
Proof.
  induction names as [|name names [IHle IHiff]].
  - split; [done|]. split; [constructor|done].
  - rewrite list_to_set_cons. destruct (decide (name ∈ names)) as [Hin|Hnot].
    + assert ({[name]} ∪ list_to_set names =@{gset string} list_to_set names) as ->.
      { apply set_eq. intros x. rewrite elem_of_union, elem_of_singleton.
        rewrite elem_of_list_to_set. split; [intros [->|?]; done|auto]. }
      simpl. split; [lia|]. split; [lia|]. by intros [? _]%NoDup_cons.
    + rewrite size_union, size_singleton
        by (apply disjoint_singleton_l; by rewrite elem_of_list_to_set).
      simpl. split; [lia|]. rewrite NoDup_cons. split.
      * intros Hs. split; [done|]. apply IHiff. lia.
      * intros [_ Hnd]. apply IHiff in Hnd. lia.
Qed.

Variable env : Optimizer.Browser.

Lemma written_lookup tasks name :
  written env tasks !! ("images_optimized/" +:+ name)
  = entryData env <$> last (filter (λ t, fileName t = name) tasks).
Proof.
  induction tasks as [|t tasks IH] using rev_ind.
  - unfold written. simpl. by rewrite lookup_empty.
  - rewrite written_snoc, filter_app.
    destruct (decide (fileName t = name)) as [Heq|Hne].
    + rewrite filter_cons_True, filter_nil, last_snoc by done.
      rewrite <- Heq. apply lookup_insert_eq.
    + rewrite filter_cons_False, filter_nil, app_nil_r by done.
      rewrite lookup_insert_ne; [done|]. by intros ?%root_inj.
Qed.

Lemma written_names tasks :
  size (written env tasks) = size (list_to_set (fileName <$> tasks) : gset string).
Proof.
  induction tasks as [|t tasks IH] using rev_ind; [done|].
  rewrite written_snoc, fmap_app, list_to_set_app_L. simpl.
  rewrite union_empty_r_L.
  destruct (decide (fileName t ∈ fileName <$> tasks)) as [Hin|Hnot].
  - assert (list_to_set (fileName <$> tasks) ∪ {[fileName t]}
            =@{gset string} list_to_set (fileName <$> tasks)) as ->.
    { apply set_eq. intros x. rewrite elem_of_union, elem_of_singleton.
      rewrite elem_of_list_to_set. split; [intros [?| ->]; done|auto]. }
    rewrite <- IH.
    destruct (written env tasks !! ("images_optimized/" +:+ fileName t)) as [data|] eqn:Hl.
    + by rewrite map_size_insert_Some.
    + exfalso. rewrite written_lookup in Hl.
      apply list_elem_of_fmap in Hin as (t' & Hn & Hin).
      assert (t' ∈ filter (λ x, fileName x = fileName t) tasks) as Hf
        by (by apply list_elem_of_filter).
      destruct (filter (λ x, fileName x = fileName t) tasks) as [|x l] using rev_ind;
        [by apply elem_of_nil in Hf|].
      by rewrite last_snoc in Hl.
  - rewrite size_union, size_singleton
      by (apply disjoint_singleton_r; by rewrite elem_of_list_to_set).
    rewrite <- IH, map_size_insert_None; [lia|].
    rewrite written_lookup.
    rewrite (filter_none _ tasks); [done|].
    intros x Hx Heq. apply Hnot. rewrite <- Heq. by apply list_elem_of_fmap_2.
Qed.

Lemma generateOptimizedZip_written tasks :
  (generateOptimizedZip env tasks).1 = written env tasks.
Proof. rewrite generateOptimizedZip_fold. simpl. by rewrite zipTask_files. Qed.

(** A task that no later task shares its file name with keeps its own
    entry. *)
Lemma written_last before t after :
  fileName t ∉ fileName <$> after →
  written env (before ++ t :: after) !! ("images_optimized/" +:+ fileName t)
  = Some (entryData env t).
Proof.
  intros Hlater. rewrite written_lookup, filter_app, filter_cons_True by done.
  rewrite (filter_none _ after).
  - by rewrite last_snoc.
  - intros x Hx Heq. apply Hlater. rewrite <- Heq. by apply list_elem_of_fmap_2.
Qed.

(** C8 (amended): for every task the archive has an entry at the task's
    file name, under the root folder, written by the last task of the list
    with that file name; and every entry is a task's entry.  For a task
    that no later task shares its file name with, the entry holds the
    resized blob if the task is a resize and [resizeImage] gives one, and
    the task's original blob if [resizeImage] fails or the task is not a
    resize.  This is so for every task when the file names are distinct,
    and exactly then does the archive have one entry for each task. *)
Theorem archive_entry_per_task tasks :
  let archive := (generateOptimizedZip env tasks).1 in
  let entry t := archive !! ("images_optimized/" +:+ fileName t) in
  let resize t := resizeImage env (blob t) (targetWidth t) (targetHeight t) in
  let holds_own t :=
    (isResize t = true → ∀ resized, resize t = Some resized → entry t = Some resized) ∧
    (isResize t = true → resize t = None → entry t = Some (blob t)) ∧
    (isResize t = false → entry t = Some (blob t)) in
  (∀ t, t ∈ tasks →
     ∃ t', last (filter (λ x, fileName x = fileName t) tasks) = Some t' ∧
           t' ∈ tasks ∧ fileName t' = fileName t ∧
           entry t = Some (entryData env t')) ∧
  (∀ name data, archive !! name = Some data →
     ∃ t, t ∈ tasks ∧ name = "images_optimized/" +:+ fileName t ∧
          data = entryData env t) ∧
  (∀ before t after,
     tasks = before ++ t :: after → fileName t ∉ fileName <$> after → holds_own t) ∧
  (NoDup (fileName <$> tasks) → ∀ t, t ∈ tasks → holds_own t) ∧
  (size archive ≤ length tasks)%nat ∧
  (size archive = length tasks ↔ NoDup (fileName <$> tasks)).
Proof.
  intros archive entry resize holds_own.
  assert (archive = written env tasks) as Harchive.
  { subst archive. rewrite generateOptimizedZip_fold. simpl. by rewrite zipTask_files. }
  assert (∀ t, entry t = Some (entryData env t) → holds_own t) as Hown.
  { intros t Ht. subst holds_own resize. simpl. rewrite Ht. unfold entryData.
    split; [|split]; intros ->; [intros resized ->|intros ->|]; done. }
  split; [|split; [|split; [|split]]].
  - intros t Hin. subst entry. simpl. rewrite Harchive, written_lookup.
    assert (t ∈ filter (λ x, fileName x = fileName t) tasks) as Hf
      by (by apply list_elem_of_filter).
    destruct (filter (λ x, fileName x = fileName t) tasks) as [|x l] eqn:Heq
      using rev_ind; [by apply elem_of_nil in Hf|].
    clear IHl. rewrite last_snoc. exists x. split; [done|].
    assert (x ∈ filter (λ x, fileName x = fileName t) tasks) as [Hn Hx]%list_elem_of_filter
      by (rewrite Heq; apply elem_of_app; right; by left).
    done.
  - intros name data Hl. rewrite Harchive in Hl.
    apply written_origin in Hl as (t & Hin & -> & ->). by exists t.
  - intros before t after -> Hlater. apply Hown. subst entry. simpl.
    rewrite Harchive. by apply written_last.
  - intros Hnd t Hin. apply Hown. subst entry. simpl. rewrite Harchive.
    by apply written_own.
  - destruct (size_distinct_names (fileName <$> tasks)) as [Hle Hiff].
    rewrite length_fmap in Hle, Hiff. by rewrite Harchive, written_names.
Qed.

End ArchiveEntries.

Section PackagingExamples.
Import Plan Samples.

(** C8, as stated, fails when two tasks have the same file name: a PNG to
    be halved and a JPEG of the same stem are both planned as
    [ui/hero.png]; the archive has a single entry at that name, which holds
    the bytes of the JPEG, so the PNG, whose resize failed, has no entry
    with its original bytes. *)
Lemma archive_entry_collision_counterexample :
  let hero_png :=
    {| width := JS.num 64; height := JS.num 64;
       sourceWidth := Some (JS.num 64); sourceHeight := Some (JS.num 64);
       file := [Byte.xa1]; originalPath := "ui/hero.png" |} in
  let hero_jpg :=
    {| width := JS.num 64; height := JS.num 64;
       sourceWidth := Some (JS.num 64); sourceHeight := Some (JS.num 64);
       file := [Byte.xb2]; originalPath := "ui/hero.jpg" |} in
  let tasks :=
    calculateOptimizationTargets
      [stat "ui/hero.png" 32 32 false; stat "ui/hero.jpg" 64 64 false]
      [("ui/hero.png"%string, hero_png); ("ui/hero.jpg"%string, hero_jpg)] None in
  let archive := (generateOptimizedZip failing_browser tasks).1 in
  ∃ t, t ∈ tasks ∧ isResize t = true ∧ blob t = [Byte.xa1] ∧
       resizeImage failing_browser (blob t) (targetWidth t) (targetHeight t) = None ∧
       archive !! ("images_optimized/" +:+ fileName t) = Some [Byte.xb2] ∧
       archive !! ("images_optimized/" +:+ fileName t) ≠ Some (blob t) ∧
       length tasks = 2%nat ∧ size archive = 1%nat.
Proof.
  eexists. split; [by left|]. split; [reflexivity|]. split; [reflexivity|].
  split; [reflexivity|]. split; [by vm_compute|]. split; [by vm_compute|].
  split; by vm_compute.
Qed.

(** A resize that fails still leaves the task's entry, with its original
    bytes. *)
Lemma archive_entry_per_task_example :
  let t := planTask hero_stat hero_image (JS.num 10) in
  isResize t = true ∧
  resizeImage failing_browser (blob t) (targetWidth t) (targetHeight t) = None ∧
  (generateOptimizedZip failing_browser [t]).1 !! "images_optimized/characters/hero.png"
  = Some png.
Proof.
  intros t.
  destruct (archive_entry_per_task failing_browser [t]) as (_ & _ & Hlast & _).
  destruct (Hlast [] t []) as (_ & Hfail & _);
    [reflexivity|by intros ?%elem_of_nil|].
  split; [reflexivity|]. split; [reflexivity|].
  apply Hfail; reflexivity.
Defined.

End PackagingExamples.

(** ** Progress reports *)

Section Progress.
Import Plan Samples Region AtlasUnpacker.

(** *** Lists of calls *)

Lemma sorted_snoc (l : list Z) m x :
  StronglySorted Z.lt l → last l = Some m → m < x → StronglySorted Z.lt (l ++ [x]).
Proof.
  intros Hs Hl Hm. induction Hs as [|a l Hs IH Ha].
  - done.
  - simpl. constructor.
    + destruct l as [|b l]; [simpl; repeat constructor|].
      apply IH. by rewrite last_cons_cons in Hl.
    + apply Forall_app. split; [done|]. constructor; [|done].
      destruct l as [|b l]; [simpl in Hl; injection Hl as ->; done|].
      rewrite last_cons_cons in Hl.
      assert (m ∈ b :: l) as Hin.
      { apply list_elem_of_lookup. rewrite last_lookup in Hl. eauto. }
      rewrite Forall_forall in Ha. specialize (Ha _ Hin). lia.
Qed.

Lemma sorted_last_once (l : list Z) x :
  StronglySorted Z.lt l → last l = Some x → length (filter (λ y, y = x) l) = 1%nat.
Proof.
  intros Hs. induction Hs as [|a l Hs IH Ha]; [done|].
  destruct l as [|b l].
  - simpl. intros [= ->]. by rewrite filter_cons_True.
  - rewrite last_cons_cons. intros Hl.
    assert (x ∈ b :: l) as Hin.
    { apply list_elem_of_lookup. rewrite last_lookup in Hl. eauto. }
    rewrite Forall_forall in Ha. specialize (Ha _ Hin).
    rewrite filter_cons_False by lia. by apply IH.
Qed.

(** Calls with a fixed total whose counts increase up to the total report
    completion exactly once. *)
Lemma completions_once (calls : list (Z * Z)) total :
  Forall (λ call, call.2 = total) calls →
  StronglySorted Z.lt calls.*1 →
  last calls = Some (total, total) →
  completions calls = 1%nat.
Proof.
  intros Htot Hs Hl. unfold completions.
  rewrite <- (sorted_last_once calls.*1 total Hs).
  - clear Hs Hl. induction Htot as [|[c t] calls Ht Htot IH]; [done|].
    simpl in Ht. subst t. rewrite fmap_cons. simpl.
    destruct (decide (c = total)) as [->|Hne].
    + rewrite !filter_cons_True by done. simpl. by rewrite IH.
    + by rewrite !filter_cons_False by done.
  - by rewrite fmap_last, Hl.
Qed.

(** *** The packager *)

Lemma generateOptimizedZip_calls (env : Optimizer.Browser) tasks :
  (generateOptimizedZip env tasks).2
  = (λ k, (Z.of_nat k, Z.of_nat (length tasks))) <$> seq 1 (length tasks).
Proof.
  rewrite generateOptimizedZip_fold. simpl.
  destruct (zipTask_progress env (Z.of_nat (length tasks))
              {| zipFiles := ∅; completed := 0; Optimizer.progressCalls := [] |} tasks)
    as [_ ->].
  done.
Qed.

Lemma seq_calls_sorted (n : nat) (total : Z) start :
  StronglySorted Z.lt ((λ k, (Z.of_nat k, total)) <$> seq start n).*1.
Proof.
  revert start. induction n as [|n IH]; intros start; simpl; constructor; [apply IH|].
  apply Forall_forall. intros c.
  rewrite <- list_fmap_compose. intros (k & -> & Hk%elem_of_seq)%list_elem_of_fmap.
  simpl. lia.
Qed.

(** *** The unpacker *)

Lemma reported_advance total (st st' : UnpackRun) :
  reported total st →
  processedCount st < processedCount st' →
  AtlasUnpacker.progressCalls st'
  = AtlasUnpacker.progressCalls st ++ [(processedCount st', total)] →
  reported total st'.
Proof.
  intros (Hh & Hl & Hs & Ht) Hlt Heq. unfold reported. rewrite Heq.
  split; [|split; [|split]].
  - by destruct (AtlasUnpacker.progressCalls st).
  - by rewrite last_snoc.
  - rewrite fmap_app. simpl. eapply sorted_snoc; [done| |done].
    by rewrite fmap_last, Hl.
  - apply Forall_app. split; [done|]. by constructor.
Qed.

Lemma unpackRegion_reported env img total st region :
  reported total st →
  reported total (unpackRegion env img true total st region) ∧
  processedCount (unpackRegion env img true total st region) = processedCount st + 1 ∧
  length (AtlasUnpacker.progressCalls (unpackRegion env img true total st region))
  = S (length (AtlasUnpacker.progressCalls st)).
Proof.
  intros H. split; [|split].
  - eapply reported_advance; [done|simpl; lia|reflexivity].
  - reflexivity.
  - simpl. rewrite length_app. simpl. lia.
Qed.

Lemma unpackRegions_reported env img total regions st :
  reported total st →
  let st' := foldl (unpackRegion env img true total) st regions in
  reported total st' ∧
  processedCount st' = processedCount st + Z.of_nat (length regions) ∧
  length (AtlasUnpacker.progressCalls st')
  = (length (AtlasUnpacker.progressCalls st) + length regions)%nat.
Proof.
  revert st. induction regions as [|region regions IH]; intros st H; simpl.
  - split; [done|]. split; lia.
  - destruct (unpackRegion_reported env img total st region H) as (H' & Hc & Hn).
    destruct (IH _ H') as (H'' & Hc' & Hn'). split; [done|]. split; lia.
Qed.

Lemma skipPage_reported total regions st :
  regions ≠ [] →
  reported total st →
  reported total (skipPage true total regions st) ∧
  processedCount (skipPage true total regions st)
  = processedCount st + Z.of_nat (length regions) ∧
  length (AtlasUnpacker.progressCalls (skipPage true total regions st))
  = S (length (AtlasUnpacker.progressCalls st)).
Proof.
  intros Hne H. split; [|split].
  - eapply reported_advance; [done| |reflexivity].
    simpl. destruct regions; [done|]. simpl. lia.
  - reflexivity.
  - simpl. rewrite length_app. simpl. lia.
Qed.

Lemma unpackPage_reported env texturePages total page st :
  page.2 ≠ [] →
  reported total st →
  let st' := unpackPage env texturePages true total st page in
  reported total st' ∧
  processedCount st' = processedCount st + Z.of_nat (length page.2) ∧
  length (AtlasUnpacker.progressCalls st')
  = (length (AtlasUnpacker.progressCalls st) + callsForPage env texturePages page)%nat.
Proof.
  intros Hne H. unfold unpackPage, callsForPage, pageUsable.
  destruct (texturePages !! page.1) as [file|].
  - destruct (pageDecodes env file).
    + by apply unpackRegions_reported.
    + destruct (skipPage_reported total page.2 st Hne H) as (? & ? & Hn).
      split; [done|]. split; [done|]. rewrite Hn. lia.
  - destruct (skipPage_reported total page.2 st Hne H) as (? & ? & Hn).
    split; [done|]. split; [done|]. rewrite Hn. lia.
Qed.

Lemma unpackPages_reported env texturePages total pageRegions st :
  Forall (λ page, page.2 ≠ []) pageRegions →
  reported total st →
  let st' := foldl (unpackPage env texturePages true total) st pageRegions in
  reported total st' ∧
  processedCount st'
  = processedCount st + Z.of_nat (sum_list_with (λ page, length page.2) pageRegions) ∧
  length (AtlasUnpacker.progressCalls st')
  = (length (AtlasUnpacker.progressCalls st)
     + sum_list_with (callsForPage env texturePages) pageRegions)%nat.
Proof.
  intros Hne. revert st. induction Hne as [|page pageRegions Hp Hne IH]; intros st H.
  - simpl. split; [done|]. split; lia.
  - destruct (unpackPage_reported env texturePages total page st Hp H) as (H' & Hc & Hn).
    destruct (IH _ H') as (H'' & Hc' & Hn').
    cbn [foldl]. split; [done|].
    rewrite Hc', Hn', Hc, Hn. simpl. split; lia.
Qed.

(** Grouping keeps every region, in groups that are not empty. *)
Lemma pushRegion_groups region pageRegions :
  Forall (λ page, page.2 ≠ []) pageRegions →
  Forall (λ page : string * list AtlasRegion, page.2 ≠ []) (pushRegion region pageRegions) ∧
  sum_list_with (λ page, length page.2) (pushRegion region pageRegions)
  = S (sum_list_with (λ page, length page.2) pageRegions).
Proof.
  induction 1 as [|[p rs] pageRegions Hp Hne IH]; simpl.
  - split; [by repeat constructor|done].
  - destruct (String.eqb p (pageName region)); simpl.
    + split; [constructor; [by destruct rs|done]|].
      rewrite length_app. simpl. lia.
    + destruct IH as [IH1 IH2]. split; [by constructor|]. rewrite IH2. lia.
Qed.

Lemma groupByPage_groups regions :
  Forall (λ page : string * list AtlasRegion, page.2 ≠ []) (groupByPage regions) ∧
  sum_list_with (λ page, length page.2) (groupByPage regions) = length regions.
Proof.
  unfold groupByPage.
  induction regions as [|region regions IH] using rev_ind; [by split|].
  rewrite foldl_app. simpl. destruct IH as [IH1 IH2].
  destruct (pushRegion_groups region _ IH1) as [H1 H2].
  split; [done|]. rewrite H2, IH2, length_app. simpl. lia.
Qed.

(** C9, as stated, fails for the packager: with no task the callback is
    never called, so no call reports completion. *)
Lemma progress_empty_counterexample :
  (generateOptimizedZip working_browser []).2 = [] ∧
  completions (generateOptimizedZip working_browser []).2 = 0%nat.
Proof. split; reflexivity. Qed.

(** C9 (amended): with a callback, the unpacker first reports [(0, total)],
    then reports after each region of a usable page and once for each page
    that is missing or does not decode, having advanced by the number of
    regions of that page; the packager reports after each task.  In both
    the total is the number of regions or tasks, the counts increase, and,
    for the packager when there is at least one task, the last call
    reports [(total, total)] and is the only one with [current = total].
    With no task the packager makes no call. *)
Theorem progress_reports :
  (∀ env texturePages atlasMetadata,
     let calls := (unpackTextures env texturePages atlasMetadata true).2 in
     let total := Z.of_nat (length atlasMetadata) in
     head calls = Some (0, total) ∧
     Forall (λ call, call.2 = total) calls ∧
     StronglySorted Z.lt calls.*1 ∧
     last calls = Some (total, total) ∧
     completions calls = 1%nat ∧
     length calls
     = S (sum_list_with (callsForPage env texturePages) (groupByPage atlasMetadata.*2))) ∧
  (∀ env tasks,
     let calls := (generateOptimizedZip env tasks).2 in
     let total := Z.of_nat (length tasks) in
     calls = (λ k, (Z.of_nat k, total)) <$> seq 1 (length tasks) ∧
     Forall (λ call, call.2 = total) calls ∧
     StronglySorted Z.lt calls.*1 ∧
     length calls = length tasks ∧
     (tasks = [] → calls = []) ∧
     (tasks ≠ [] → last calls = Some (total, total) ∧ completions calls = 1%nat)).
Proof.
  split.
  - intros env texturePages atlasMetadata calls total.
    destruct (groupByPage_groups atlasMetadata.*2) as [Hne Hsum].
    assert (reported total
              {| unpacked := ∅; processedCount := 0;
                 AtlasUnpacker.progressCalls := [(0, total)] |}) as Hstart.
    { split; [done|]. split; [done|]. split; repeat constructor. }
    destruct (unpackPages_reported env texturePages total _ _ Hne Hstart)
      as ((Hh & Hl & Hs & Ht) & Hc & Hn).
    assert (total = Z.of_nat (length atlasMetadata.*2)) as Htotal
      by (subst total; by rewrite length_fmap).
    assert (calls = AtlasUnpacker.progressCalls
              (foldl (unpackPage env texturePages true total)
                 {| unpacked := ∅; processedCount := 0;
                    AtlasUnpacker.progressCalls := [(0, total)] |}
                 (groupByPage atlasMetadata.*2))) as Hcalls.
    { subst calls. unfold unpackTextures. simpl. by rewrite <- Htotal. }
    rewrite Hsum in Hc. simpl in Hc. rewrite <- Htotal in Hc. rewrite Hc in Hl.
    rewrite <- Hcalls in *.
    split; [done|]. split; [done|]. split; [done|]. split; [done|]. split.
    + by apply (completions_once calls total).
    + rewrite Hn. simpl. lia.
  - intros env tasks calls total.
    assert (calls = (λ k, (Z.of_nat k, total)) <$> seq 1 (length tasks)) as Hcalls
      by apply generateOptimizedZip_calls.
    assert (Forall (λ call, call.2 = total) calls) as Htot.
    { rewrite Hcalls. apply Forall_fmap, Forall_forall. by intros k _. }
    assert (StronglySorted Z.lt calls.*1) as Hsorted
      by (rewrite Hcalls; apply seq_calls_sorted).
    split; [done|]. split; [done|]. split; [done|].
    split; [by rewrite Hcalls, length_fmap, length_seq|].
    split; [intros ->; by rewrite Hcalls|].
    intros Hne.
    assert (last calls = Some (total, total)) as Hlast.
    { rewrite Hcalls. subst total.
      destruct (length tasks) as [|n] eqn:Hlen; [by destruct tasks|].
      rewrite seq_S, fmap_app. cbn [fmap list_fmap]. by rewrite last_snoc. }
    split; [done|]. by apply (completions_once calls total).
Qed.

(** Three regions on two pages of which the second is missing: the
    unpacker reports 0, 1 and then 3 of 3; two tasks: the packager reports
    1 and 2 of 2. *)
Lemma progress_reports_example :
  (unpackTextures unpacking_browser pages atlas true).2 = [(0, 3); (1, 3); (3, 3)] ∧
  completions (unpackTextures unpacking_browser pages atlas true).2 = 1%nat ∧
  let tasks := [planTask hero_stat hero_image (JS.num 10);
                planTask badge_stat badge_image (JS.num 10)] in
  (generateOptimizedZip working_browser tasks).2 = [(1, 2); (2, 2)] ∧
  last (generateOptimizedZip working_browser tasks).2 = Some (2, 2) ∧
  completions (generateOptimizedZip working_browser tasks).2 = 1%nat.
Proof.
  destruct progress_reports as [Hunpack Hzip].
  destruct (Hunpack unpacking_browser pages atlas) as (_ & _ & _ & _ & Honce & _).
  split; [by vm_compute|]. split; [exact Honce|].
  intros tasks.
  destruct (Hzip working_browser tasks) as (Hcalls & _ & _ & _ & _ & Hlast).
  destruct Hlast as [Hlast Hone]; [done|].
  split; [by rewrite Hcalls|]. split; [exact Hlast|exact Hone].
Defined.


End Progress.

(** ** Region extraction *)

Section Extraction.
Import Samples Region AtlasUnpacker.

(** C4, as stated, fails on its example: the rotated 50x30 region is
    restored on the 80x60 canvas at (5, 0) over a footprint 30 wide and 50
    tall, not 50 wide and 30 tall. *)
Lemma rotated_footprint_counterexample :
  ∃ call,
    Canvas.drawn (Canvas.context (drawRegion png rotated_region)) = [call] ∧
    Canvas.footprint call
    = {| Canvas.left := 5; Canvas.top := 0; Canvas.rw := 30; Canvas.rh := 50 |} ∧
    Canvas.rw (Canvas.footprint call) ≠ 50 ∧
    Canvas.rh (Canvas.footprint call) ≠ 30.
Proof. eexists. split; [reflexivity|]. by vm_compute. Qed.

(** C4 (amended): [extractRegion] encodes a canvas of the original size on
    which the packed rectangle is drawn once, with its packed width and
    height passed unchanged, and the transformation restored afterwards;
    [destX] is [offsetX] and [destY] is
    [originalHeight - (offsetY + packedSpan)], where [packedSpan] is the
    region's width when rotated and its height otherwise.  For a region of
    non-negative size the painted footprint has its top left corner at
    [(destX, destY)]; it is [width] wide and [height] tall when the region
    is not rotated, and [height] wide and [width] tall when it is. *)
Theorem region_placement env img region :
  0 ≤ width region → 0 ≤ height region →
  let canvas := drawRegion img region in
  let packedSpan := if rotated region then width region else height region in
  extractRegion env img region
  = (if getContext2d env region then toBlob env canvas else None) ∧
  Canvas.width canvas = originalWidth region ∧
  Canvas.height canvas = originalHeight region ∧
  destX region = offsetX region ∧
  destY region = originalHeight region - (offsetY region + packedSpan) ∧
  Canvas.current (Canvas.context canvas) = Canvas.identity ∧
  Canvas.saved (Canvas.context canvas) = [] ∧
  ∃ call,
    Canvas.drawn (Canvas.context canvas) = [call] ∧
    Canvas.image call = img ∧
    Canvas.source call
    = {| Canvas.left := x region; Canvas.top := y region;
         Canvas.rw := width region; Canvas.rh := height region |} ∧
    Canvas.rw (Canvas.dest call) = width region ∧
    Canvas.rh (Canvas.dest call) = height region ∧
    Canvas.footprint call
    = {| Canvas.left := destX region; Canvas.top := destY region;
         Canvas.rw := if rotated region then height region else width region;
         Canvas.rh := if rotated region then width region else height region |}.
Proof.
  intros Hw Hh canvas packedSpan.
  split; [reflexivity|]. split; [reflexivity|]. split; [reflexivity|].
  split; [reflexivity|]. split; [reflexivity|].
  subst canvas. unfold drawRegion.
  destruct (rotated region) eqn:Hrot; simpl.
  - split; [reflexivity|]. split; [reflexivity|]. eexists.
    split; [reflexivity|]. split; [reflexivity|]. split; [reflexivity|].
    split; [reflexivity|]. split; [reflexivity|].
    unfold Canvas.footprint, Canvas.apply. simpl. f_equal; lia.
  - split; [reflexivity|]. split; [reflexivity|]. eexists.
    split; [reflexivity|]. split; [reflexivity|]. split; [reflexivity|].
    split; [reflexivity|]. split; [reflexivity|].
    unfold Canvas.footprint, Canvas.apply. simpl. f_equal; lia.
Qed.

(** The example of the specification: canvas 80x60, [destX = 5],
    [destY = 60 - (10 + 50) = 0], footprint 30x50. *)
Lemma region_placement_example :
  let canvas := drawRegion png rotated_region in
  Canvas.width canvas = 80 ∧ Canvas.height canvas = 60 ∧
  destX rotated_region = 5 ∧ destY rotated_region = 0 ∧
  ∃ call,
    Canvas.drawn (Canvas.context canvas) = [call] ∧
    Canvas.footprint call
    = {| Canvas.left := 5; Canvas.top := 0; Canvas.rw := 30; Canvas.rh := 50 |}.
Proof.
  destruct (region_placement unpacking_browser png rotated_region)
    as (_ & HW & HH & HX & HY & _ & _ & call & Hdrawn & _ & _ & _ & _ & Hfoot).
  - by vm_compute.
  - by vm_compute.
  - split; [exact HW|]. split; [exact HH|]. split; [exact HX|]. split; [exact HY|].
    exists call. split; [exact Hdrawn|exact Hfoot].
Defined.

End Extraction.

(** * Further properties of the code *)

(** ** Grouping regions by page *)

Section Grouping.
Import Region AtlasUnpacker Unpacked.

Lemma pushRegion_fresh region pageRegions :
  pageName region ∉ pageRegions.*1 →
  pushRegion region pageRegions = pageRegions ++ [(pageName region, [region])].
Proof.
  induction pageRegions as [|[p rs] pageRegions IH]; [done|].
  rewrite fmap_cons, not_elem_of_cons. simpl. intros [Hne Hnot].
  destruct (String.eqb_spec p (pageName region)) as [->|_]; [done|].
  by rewrite IH.
Qed.

Lemma pushRegion_found region before rs after :
  pageName region ∉ before.*1 →
  pushRegion region (before ++ (pageName region, rs) :: after)
  = before ++ (pageName region, rs ++ [region]) :: after.
Proof.
  induction before as [|[p rs'] before IH]; simpl.
  - intros _. by rewrite String.eqb_refl.
  - rewrite not_elem_of_cons. intros [Hne Hnot].
    destruct (String.eqb_spec p (pageName region)) as [->|_]; [done|].
    by rewrite IH.
Qed.

Lemma key_of_group {A} (p : string) (rs : A) (pageRegions : list (string * A)) :
  (p, rs) ∈ pageRegions → p ∈ pageRegions.*1.
Proof. intros Hin. by apply (list_elem_of_fmap_2 fst _ (p, rs)). Qed.

Lemma grouped_push seen pageRegions region :
  grouped seen pageRegions →
  grouped (seen ++ [region]) (pushRegion region pageRegions).
Proof.
  intros (Hnd & Hgroups & Hkeys & Hperm).
  destruct (decide (pageName region ∈ pageRegions.*1)) as [Hin|Hnot].
  - apply list_elem_of_fmap in Hin as ([p rs] & Hp & Hin). simpl in Hp. subst p.
    apply list_elem_of_split in Hin as (before & after & ->).
    rewrite fmap_app, fmap_cons in Hnd. simpl in Hnd.
    apply NoDup_app in Hnd as (Hnd1 & Hbefore & Hnd2).
    apply NoDup_cons in Hnd2 as [Hafter Hnd2].
    assert (pageName region ∉ before.*1) as Hfresh.
    { intros Hin. apply (Hbefore _ Hin). by left. }
    rewrite pushRegion_found by done.
    split; [|split; [|split]].
    + rewrite fmap_app, fmap_cons. simpl.
      apply NoDup_app. split; [done|]. split; [done|]. by apply NoDup_cons.
    + intros p rs' Hin. rewrite filter_app.
      apply elem_of_app in Hin as [Hin|[Heq|Hin]%elem_of_cons].
      * destruct (Hgroups p rs') as [-> Hne]; [apply elem_of_app; by left|].
        split; [|by destruct (filter _ seen)].
        rewrite filter_cons_False, filter_nil, app_nil_r; [done|].
        intros <-. by apply Hfresh, (key_of_group _ _ _ Hin).
      * injection Heq as -> ->.
        destruct (Hgroups (pageName region) rs) as [-> Hne];
          [apply elem_of_app; right; by left|].
        split; [|by destruct (filter _ seen)].
        by rewrite filter_cons_True, filter_nil.
      * destruct (Hgroups p rs') as [-> Hne];
          [apply elem_of_app; right; by right|].
        split; [|by destruct (filter _ seen)].
        rewrite filter_cons_False, filter_nil, app_nil_r; [done|].
        intros <-. by apply Hafter, (key_of_group _ _ _ Hin).
    + intros r Hr. rewrite fmap_app, fmap_cons. simpl.
      apply elem_of_app in Hr as [Hr|Hr%list_elem_of_singleton].
      * specialize (Hkeys r Hr). by rewrite fmap_app, fmap_cons in Hkeys.
      * subst r. apply elem_of_app. right. by left.
    + rewrite fmap_app, fmap_cons, join_app in Hperm. simpl in Hperm.
      rewrite fmap_app, fmap_cons, join_app. simpl.
      rewrite <- Hperm, <- !app_assoc. apply Permutation_app_head.
      apply Permutation_app_head. apply Permutation_cons_append.
  - rewrite pushRegion_fresh by done.
    split; [|split; [|split]].
    + rewrite fmap_app. simpl. apply NoDup_app. split; [done|].
      split; [|apply NoDup_singleton].
      intros p Hp ->%list_elem_of_singleton. done.
    + intros p rs Hin. rewrite filter_app.
      apply elem_of_app in Hin as [Hin|Heq%list_elem_of_singleton].
      * destruct (Hgroups p rs Hin) as [-> Hne].
        split; [|by destruct (filter _ seen)].
        rewrite filter_cons_False, filter_nil, app_nil_r; [done|].
        intros <-. by apply Hnot, (key_of_group _ _ _ Hin).
      * injection Heq as -> ->. split; [|done].
        rewrite filter_cons_True, filter_nil by done.
        assert (filter (λ r, pageName r = pageName region) seen = []) as ->; [|done].
        apply filter_none. intros r Hr Hp. apply Hnot. rewrite <- Hp. by apply Hkeys.
    + intros r Hr. rewrite fmap_app. simpl.
      apply elem_of_app in Hr as [Hr|Hr%list_elem_of_singleton].
      * apply elem_of_app. left. by apply Hkeys.
      * subst r. apply elem_of_app. right. by left.
    + rewrite fmap_app, join_app. simpl. by rewrite Hperm.
Qed.

Lemma groupByPage_grouped regions : grouped regions (groupByPage regions).
Proof.
  unfold groupByPage.
  induction regions as [|region regions IH] using rev_ind.
  - split; [constructor|]. split; [by intros p rs ?%elem_of_nil|].
    split; [by intros r ?%elem_of_nil|done].
  - rewrite foldl_app. simpl. by apply grouped_push.
Qed.

(** The grouping of lines 22-32 is a partition by page: page names are not
    repeated, a page has a group exactly when some region names it, its
    group is the list of those regions in their original order, and the
    groups together are a rearrangement of the regions. *)
Theorem groupByPage_partition regions :
  NoDup (groupByPage regions).*1 ∧
  (∀ p rs, (p, rs) ∈ groupByPage regions ↔
     rs = filter (λ r, pageName r = p) regions ∧ rs ≠ []) ∧
  processingOrder regions ≡ₚ regions.
Proof.
  destruct (groupByPage_grouped regions) as (Hnd & Hgroups & Hkeys & Hperm).
  split; [done|]. split; [|done].
  intros p rs. split; [apply Hgroups|].
  intros [-> Hne].
  destruct (filter (λ r, pageName r = p) regions) as [|r rs] eqn:Hf; [done|].
  assert (r ∈ filter (λ r, pageName r = p) regions) as [Hp Hr]%list_elem_of_filter
    by (rewrite Hf; by left).
  apply Hkeys in Hr. rewrite Hp in Hr.
  apply list_elem_of_fmap in Hr as ([p' rs'] & Heq & Hin). simpl in Heq. subst p'.
  destruct (Hgroups p rs' Hin) as [Hrs' _]. rewrite Hf in Hrs'. by subst rs'.
Qed.

End Grouping.

(** ** The unpacked assets *)

Section UnpackedAssets.
Import Region AtlasUnpacker Unpacked Samples.

Variable env : AtlasUnpacker.Browser.
Variable texturePages : gmap string Blob.

Lemma unpackRegions_unpacked img onProgress total regions st :
  unpacked (foldl (unpackRegion env img onProgress total) st regions)
  = foldl (λ m region,
             match extractRegion env img region with
             | Some blob => <[name region := assetOf env region blob]> m
             | None => m
             end) (unpacked st) regions.
Proof.
  revert st. induction regions as [|region regions IH]; intros st; [done|].
  simpl. by rewrite IH.
Qed.

Lemma unpackPage_unpacked onProgress total st page :
  (∀ r, r ∈ page.2 → pageName r = page.1) →
  unpacked (unpackPage env texturePages onProgress total st page)
  = foldl (store env texturePages) (unpacked st) page.2.
Proof.
  destruct page as [p regions]. simpl. intros Hpage. unfold unpackPage. simpl.
  assert (∀ rs m, (∀ r, r ∈ rs → regionResult env texturePages r = None) →
            foldl (store env texturePages) m rs = m) as Hskip.
  { intros rs. induction rs as [|r rs IH]; intros m Hnone; [done|]. simpl.
    rewrite IH by (intros r' Hr'; apply Hnone; by right).
    unfold store. by rewrite Hnone by (by left). }
  destruct (texturePages !! p) as [file|] eqn:Hfile.
  - destruct (pageDecodes env file) eqn:Hdecodes.
    + rewrite unpackRegions_unpacked. generalize (unpacked st) as m.
      induction regions as [|r rs IH]; intros m; [done|]. simpl.
      rewrite IH by (intros r' Hr'; apply Hpage; by right).
      f_equal. unfold store, regionResult.
      by rewrite (Hpage r), Hfile, Hdecodes by (by left).
    + simpl. rewrite Hskip; [done|]. intros r Hr. unfold regionResult.
      by rewrite (Hpage r Hr), Hfile, Hdecodes.
  - simpl. rewrite Hskip; [done|]. intros r Hr. unfold regionResult.
    by rewrite (Hpage r Hr), Hfile.
Qed.

Lemma unpackPages_unpacked onProgress total pageRegions st :
  Forall (λ page, ∀ r, r ∈ page.2 → pageName r = page.1) pageRegions →
  unpacked (foldl (unpackPage env texturePages onProgress total) st pageRegions)
  = foldl (store env texturePages) (unpacked st) (mjoin pageRegions.*2).
Proof.
  intros Hpages. revert st.
  induction Hpages as [|page pageRegions Hpage Hpages IH]; intros st; [done|].
  simpl. by rewrite IH, foldl_app, unpackPage_unpacked.
Qed.

(** The result is what the regions store, one after the other in processing
    order, whether a callback is given or not. *)
Lemma unpackTextures_unpacked atlasMetadata onProgress :
  (unpackTextures env texturePages atlasMetadata onProgress).1
  = foldl (store env texturePages) ∅ (processingOrder atlasMetadata.*2).
Proof.
  unfold unpackTextures, processingOrder. simpl.
  rewrite unpackPages_unpacked; [done|].
  apply Forall_forall. intros [p rs] Hin r Hr. simpl in *.
  destruct (groupByPage_grouped atlasMetadata.*2) as (_ & Hgroups & _).
  apply Hgroups in Hin as [-> _]. by apply list_elem_of_filter in Hr as [? _].
Qed.

Lemma store_origin regions name asset :
  foldl (store env texturePages) ∅ regions !! name = Some asset →
  ∃ region blob,
    region ∈ regions ∧ Region.name region = name ∧
    regionResult env texturePages region = Some blob ∧
    asset = assetOf env region blob.
Proof.
  induction regions as [|region regions IH] using rev_ind.
  - simpl. by rewrite lookup_empty.
  - rewrite foldl_app. simpl. unfold Unpacked.store at 1.
    destruct (regionResult env texturePages region) as [blob|] eqn:Hres.
    + intros [[<- <-]|[_ Hl]]%lookup_insert_Some.
      * exists region, blob. split; [|done]. apply elem_of_app. right. by left.
      * destruct (IH Hl) as (r & b & Hin & ?). exists r, b.
        split; [|done]. apply elem_of_app. by left.
    + intros Hl. destruct (IH Hl) as (r & b & Hin & ?). exists r, b.
      split; [|done]. apply elem_of_app. by left.
Qed.

Lemma store_own regions region :
  NoDup (Region.name <$> regions) → region ∈ regions →
  foldl (store env texturePages) ∅ regions !! Region.name region
  = assetOf env region <$> regionResult env texturePages region.
Proof.
  induction regions as [|r regions IH] using rev_ind; [by intros _ ?%elem_of_nil|].
  rewrite fmap_app, foldl_app. simpl.
  intros (Hnd & Hfresh & _)%NoDup_app [Hin|Hin%list_elem_of_singleton]%elem_of_app.
  - assert (Region.name r ≠ Region.name region) as Hne.
    { intros Heq. apply (Hfresh (Region.name region)).
      - by apply list_elem_of_fmap_2.
      - rewrite Heq. by left. }
    unfold Unpacked.store at 1. destruct (regionResult env texturePages r).
    + rewrite lookup_insert_ne by done. by apply IH.
    + by apply IH.
  - subst r. unfold Unpacked.store at 1.
    destruct (regionResult env texturePages region) as [blob|] eqn:Hres.
    + by rewrite lookup_insert_eq.
    + simpl. destruct (foldl (store env texturePages) ∅ regions !! Region.name region) as [a|] eqn:Hl; [|done].
      apply store_origin in Hl as (r & b & Hr & Hname & _). exfalso.
      apply (Hfresh (Region.name region)); [|by left].
      rewrite <- Hname. by apply list_elem_of_fmap_2.
Qed.

(** Every unpacked asset is the restored sprite of a region of the
    metadata, stored under the region's name: the region's page is
    supplied and decodes, its extraction gave the asset's blob, and the
    asset's size and source size are the region's original size.  A
    callback does not change the result. *)
Theorem unpacked_assets_sound atlasMetadata onProgress :
  let result := (unpackTextures env texturePages atlasMetadata onProgress).1 in
  (∀ name asset, result !! name = Some asset →
     ∃ region file,
       region ∈ atlasMetadata.*2 ∧ Region.name region = name ∧
       texturePages !! pageName region = Some file ∧
       pageDecodes env file = true ∧
       extractRegion env file region = Some (Asset.blob asset) ∧
       Asset.name asset = name ∧
       Asset.width asset = originalWidth region ∧
       Asset.height asset = originalHeight region ∧
       Asset.sourceWidth asset = Some (Asset.width asset) ∧
       Asset.sourceHeight asset = Some (Asset.height asset)) ∧
  result = (unpackTextures env texturePages atlasMetadata (negb onProgress)).1.
Proof.
  intros result. split.
  - intros name asset Hl. subst result. rewrite unpackTextures_unpacked in Hl.
    apply store_origin in Hl as (region & blob & Hin & Hname & Hres & ->).
    destruct (groupByPage_grouped atlasMetadata.*2) as (_ & _ & _ & Hperm).
    unfold processingOrder in Hin. rewrite Hperm in Hin.
    unfold regionResult in Hres.
    destruct (texturePages !! pageName region) as [file|] eqn:Hfile; [|done].
    destruct (pageDecodes env file) eqn:Hdec; [|done].
    exists region, file. by repeat split.
  - subst result. by rewrite !unpackTextures_unpacked.
Qed.

(** When the regions have distinct names, each region of the metadata is
    unpacked under its name exactly when its page is supplied and decodes
    and its extraction gives a blob; the asset then holds that blob. *)
Theorem unpacked_assets_complete atlasMetadata onProgress region :
  NoDup (Region.name <$> atlasMetadata.*2) →
  region ∈ atlasMetadata.*2 →
  (unpackTextures env texturePages atlasMetadata onProgress).1 !! Region.name region
  = assetOf env region <$> regionResult env texturePages region.
Proof.
  intros Hnd Hin. rewrite unpackTextures_unpacked.
  destruct (groupByPage_grouped atlasMetadata.*2) as (_ & _ & _ & Hperm).
  apply store_own.
  - unfold processingOrder. by rewrite Hperm.
  - unfold processingOrder. by rewrite Hperm.
Qed.

(** When no page is supplied nothing is unpacked. *)
Theorem unpacked_without_pages atlasMetadata onProgress :
  (∀ region, region ∈ atlasMetadata.*2 → texturePages !! pageName region = None) →
  (unpackTextures env texturePages atlasMetadata onProgress).1 = ∅.
Proof.
  intros Hnone. apply map_empty. intros name.
  destruct (_ !! name) as [asset|] eqn:Hl; [|done].
  rewrite unpackTextures_unpacked in Hl.
  apply store_origin in Hl as (region & blob & Hin & _ & Hres & _).
  destruct (groupByPage_grouped atlasMetadata.*2) as (_ & _ & _ & Hperm).
  unfold processingOrder in Hin. rewrite Hperm in Hin.
  unfold regionResult in Hres. by rewrite Hnone in Hres.
Qed.

End UnpackedAssets.

Section UnpackedExamples.
Import Region AtlasUnpacker Unpacked Samples.

(** Of three regions on two pages, the one whose page is supplied is
    unpacked at its original size of 80x60. *)
Lemma unpacked_assets_complete_example :
  (unpackTextures unpacking_browser pages atlas true).1 !! "arm"%string
  = Some (assetOf unpacking_browser rotated_region png) ∧
  (unpackTextures unpacking_browser pages atlas true).1 !! "leg"%string = None.
Proof.
  split.
  - apply (unpacked_assets_complete unpacking_browser pages atlas true rotated_region).
    + apply (bool_decide_unpack _). reflexivity.
    + by left.
  - apply (unpacked_assets_complete unpacking_browser pages atlas true
             (region "leg" "page2.png" 20 20 false)).
    + apply (bool_decide_unpack _). reflexivity.
    + right. by left.
Defined.

(** Without any page file the unpacker returns an empty map. *)
Lemma unpacked_without_pages_example :
  (unpackTextures unpacking_browser ∅ atlas true).1 = ∅.
Proof.
  apply (unpacked_without_pages unpacking_browser ∅ atlas true).
  intros region _. apply lookup_empty.
Defined.

End UnpackedExamples.

(** ** The resize decision *)

Section ResizeDecision.
Import Stat Loaded Task Optimizer Plan Samples.

(** For an image of physical size at least 1x1 and a required size that
    is not NaN, the planned task is a resize exactly when, on some axis,
    the required size, taken as at least 1, is below the physical size.
    When the required size covers the physical size on both axes the task
    is a copy: its target is the physical size, the data written for it is
    the image's own bytes, whatever the browser does, and the archive of
    the planned tasks holds these bytes at the task's file name unless a
    later task has the same file name. *)
Theorem resize_exactly_when_smaller stats loaded b key original stat :
  (key, original) ∈ loaded →
  buildStatsMap stats !! key = Some stat →
  let buffer := JS.nullish b (JS.num 0) in
  let requiredW := calculatedW stat buffer in
  let requiredH := calculatedH stat buffer in
  JS.le (JS.num 1) (physicalW original) = true →
  JS.le (JS.num 1) (physicalH original) = true →
  JS.isNaN requiredW = false →
  JS.isNaN requiredH = false →
  let t := planTask stat original buffer in
  t ∈ calculateOptimizationTargets stats loaded b ∧
  isResize t
  = JS_lt (JS.Math_max (JS.num 1) requiredW) (physicalW original)
    || JS_lt (JS.Math_max (JS.num 1) requiredH) (physicalH original) ∧
  (JS.le (physicalW original) requiredW = true →
   JS.le (physicalH original) requiredH = true →
   isResize t = false ∧
   targetWidth t = physicalW original ∧ targetHeight t = physicalH original ∧
   ∀ env,
     entryData env t = file original ∧
     ∀ before after,
       calculateOptimizationTargets stats loaded b = before ++ t :: after →
       fileName t ∉ fileName <$> after →
       (generateOptimizedZip env (calculateOptimizationTargets stats loaded b)).1
         !! ("images_optimized/" +:+ fileName t)
       = Some (file original)).
Proof.
  intros Hin Hs buffer requiredW requiredH HpW HpH HnW HnH t.
  split; [apply elem_of_calculateOptimizationTargets; eauto 10|].
  assert (isResize t
          = JS_lt (JS.Math_max (JS.num 1) requiredW) (physicalW original)
            || JS_lt (JS.Math_max (JS.num 1) requiredH) (physicalH original)) as Hflag.
  { subst t. simpl. by rewrite !clampTarget_resize. }
  split; [exact Hflag|].
  intros HW HH.
  assert (isResize t = false) as Hcopy.
  { rewrite Hflag, !lt_not_le; [done| |].
    - rewrite Math_max_1; [done|]. by apply (le_transitive _ (physicalH original)).
    - rewrite Math_max_1; [done|]. by apply (le_transitive _ (physicalW original)). }
  split; [exact Hcopy|].
  split; [by apply clampTarget_covered|]. split; [by apply clampTarget_covered|].
  intros env.
  assert (entryData env t = file original) as Hdata
    by (unfold entryData; by rewrite Hcopy).
  split; [exact Hdata|].
  intros before after Htasks Hlater.
  rewrite generateOptimizedZip_written, Htasks, <- Hdata. by apply written_last.
Qed.

(** An override of 200x200 on a 150x150 image is a copy, and the archive
    holds the image's bytes though no image decodes; a requirement of
    512x256 on a 1024x512 image is a resize. *)
Lemma resize_exactly_when_smaller_example :
  let copy := planTask badge_stat badge_image (JS.num 10) in
  let resize := planTask hero_stat hero_image (JS.num 10) in
  (isResize copy = false ∧ entryData failing_browser copy = png ∧
   (generateOptimizedZip failing_browser
      (calculateOptimizationTargets [badge_stat]
         [("ui/badge"%string, badge_image)] (Some (JS.num 10)))).1
     !! "images_optimized/ui/badge.png"%string = Some png) ∧
  isResize resize = true.
Proof.
  intros copy resize.
  assert (("ui/badge"%string, badge_image) ∈ [("ui/badge"%string, badge_image)])
    as Hbadge by (apply list_elem_of_singleton; reflexivity).
  assert (("characters/hero"%string, hero_image)
            ∈ [("characters/hero"%string, hero_image)])
    as Hhero by (apply list_elem_of_singleton; reflexivity).
  destruct (resize_exactly_when_smaller [badge_stat] _ (Some (JS.num 10))
              _ _ badge_stat Hbadge eq_refl eq_refl eq_refl eq_refl eq_refl)
    as (_ & _ & Hcopy).
  destruct (Hcopy eq_refl eq_refl) as (Hflag & _ & _ & Hdata).
  destruct (Hdata failing_browser) as [Hbytes Hentry].
  destruct (resize_exactly_when_smaller [hero_stat] _ (Some (JS.num 10))
              _ _ hero_stat Hhero eq_refl eq_refl eq_refl eq_refl eq_refl)
    as (_ & Hresize & _).
  split; [|exact Hresize]. split; [exact Hflag|]. split; [exact Hbytes|].
  apply (Hentry [] []); [reflexivity|]. by intros ?%elem_of_nil.
Defined.

End ResizeDecision.

(** ** Stats with the same key *)

Section StatsLookup.
Import Stat Loaded Task Optimizer Plan.

Lemma buildStatsMap_snoc stats s :
  buildStatsMap (stats ++ [s]) = <[lookupKey s := s]> (buildStatsMap stats).
Proof. unfold buildStatsMap. by rewrite foldl_app. Qed.

(** When several stats have the same key the last one is used: the
    lookup made for a loaded image gives the last stat of the list with
    that key, and the image's task is planned from it. *)
Theorem stats_last_wins stats :
  (∀ key, buildStatsMap stats !! key = last (filter (λ s, lookupKey s = key) stats)) ∧
  (∀ loaded b key original stat,
     (key, original) ∈ loaded →
     last (filter (λ s, lookupKey s = key) stats) = Some stat →
     planTask stat original (JS.nullish b (JS.num 0))
       ∈ calculateOptimizationTargets stats loaded b) ∧
  (∀ earlier s later,
     stats = earlier ++ s :: later → lookupKey s ∈ lookupKey <$> later →
     buildStatsMap stats = buildStatsMap (earlier ++ later)).
Proof.
  assert (∀ stats key,
            buildStatsMap stats !! key = last (filter (λ s, lookupKey s = key) stats))
    as Hlast.
  { clear stats. intros stats key.
    induction stats as [|s stats IH] using rev_ind; [done|].
    rewrite buildStatsMap_snoc, filter_app.
    destruct (decide (lookupKey s = key)) as [Heq|Hne].
    - rewrite filter_cons_True, filter_nil, last_snoc by done.
      rewrite <- Heq. apply lookup_insert_eq.
    - rewrite filter_cons_False, filter_nil, app_nil_r by done.
      by rewrite lookup_insert_ne. }
  split; [apply Hlast|]. split.
  - intros loaded b key original stat Hin Hs.
    apply elem_of_calculateOptimizationTargets.
    exists key, original, stat. by rewrite Hlast.
  - intros earlier s later -> Hlater. apply map_eq. intros key.
    rewrite !Hlast, !filter_app.
    destruct (decide (lookupKey s = key)) as [Heq|Hne].
    + rewrite filter_cons_True by done.
      apply list_elem_of_fmap in Hlater as (s' & Hk & Hs').
      assert (s' ∈ filter (λ s, lookupKey s = key) later) as Hin
        by (apply list_elem_of_filter; split; [congruence|done]).
      destruct (filter (λ s, lookupKey s = key) later) as [|x l] eqn:Hf;
        [by apply elem_of_nil in Hin|].
      by rewrite !last_app_cons, last_cons_cons.
    + by rewrite filter_cons_False by done.
Qed.

End StatsLookup.

(** ** File names that coincide *)

Section NameCollisions.
Import Stat Loaded Task Optimizer Plan Samples.

(** The output name of an output name is itself; two paths that differ
    only in their extension get the same output name, and so do a path
    without extension and that path with [.png] appended. *)
Theorem output_file_name_stable :
  (∀ path, outputFileName (outputFileName path) = outputFileName path) ∧
  (∀ path1 path2 stem ext1 ext2,
     has_extension path1 stem ext1 → has_extension path2 stem ext2 →
     outputFileName path1 = outputFileName path2) ∧
  (∀ path, no_extension path → outputFileName (path +:+ ".png") = outputFileName path).
Proof.
  assert (∀ stem, outputFileName (stem +:+ ".png") = stem +:+ ".png") as Hpng.
  { intros stem. by apply (outputFileName_strip _ stem "png"). }
  split; [|split].
  - intros path. unfold outputFileName at 2 3. apply Hpng.
  - intros path1 path2 stem ext1 ext2 H1 H2.
    by rewrite (outputFileName_strip _ _ _ H1), (outputFileName_strip _ _ _ H2).
  - intros path Hno. by rewrite Hpng, outputFileName_keep.
Qed.

Variable env : Optimizer.Browser.

(** Tasks with the same file name share one entry of the archive, and
    the last of them writes it: the entry at a name holds the data of the
    last task with that name.  The archive has as many entries as there
    are distinct file names, at most one for each task, and one for each
    task exactly when the file names are distinct. *)
Theorem archive_last_write_wins tasks :
  let archive := (generateOptimizedZip env tasks).1 in
  (∀ name, archive !! ("images_optimized/" +:+ name)
           = entryData env <$> last (filter (λ t, fileName t = name) tasks)) ∧
  size archive = size (list_to_set (fileName <$> tasks) : gset string) ∧
  (size archive ≤ length tasks)%nat ∧
  (size archive = length tasks ↔ NoDup (fileName <$> tasks)).
Proof.
  intros archive.
  assert (archive = written env tasks) as ->.
  { subst archive. rewrite generateOptimizedZip_fold. simpl. by rewrite zipTask_files. }
  destruct (size_distinct_names (fileName <$> tasks)) as [Hle Hiff].
  rewrite length_fmap in Hle, Hiff.
  split; [apply written_lookup|]. rewrite written_names. done.
Qed.

End NameCollisions.

Section NameCollisionExamples.
Import Stat Loaded Task Optimizer Plan Samples.

(** A PNG and a JPEG of the same stem are planned under one name, and the
    archive of the two tasks has a single entry. *)
Example archive_collision :
  let tasks :=
    calculateOptimizationTargets
      [stat "a" 64 64 false; stat "b" 64 64 false]
      [("a"%string, image "ui/hero.png" 64 64); ("b"%string, image "ui/hero.jpg" 64 64)]
      None in
  fileName <$> tasks = ["ui/hero.png"; "ui/hero.png"]%string ∧
  size (generateOptimizedZip working_browser tasks).1 = 1%nat.
Proof. split; by vm_compute. Qed.

End NameCollisionExamples.

(** ** The optimization dialog *)

Section RowSelection.
Import Task Optimizer OptimizationModal.

Lemma elem_of_addRange start stop selected i :
  i ∈ addRange start stop selected ↔ (start ≤ i ≤ stop)%nat ∨ i ∈ selected.
Proof.
  unfold addRange.
  assert (∀ l (s : gset nat),
            i ∈ foldl (λ selected i, {[i]} ∪ selected) s l ↔ i ∈ l ∨ i ∈ s) as Hfold.
  { induction l as [|x l IH]; intros s; simpl.
    - rewrite elem_of_nil. tauto.
    - rewrite IH, elem_of_cons, elem_of_union, elem_of_singleton. tauto. }
  rewrite Hfold, elem_of_seq. split; (intros [?|?]; [left; lia|by right]).
Qed.

(** A click with shift held, once an anchor is set, selects all rows from
    the anchor to the clicked row, in either direction, and leaves the
    anchor where it was; the rows selected before are kept only when
    ctrl or meta is held as well. *)
Theorem shift_click_selects_range index e st anchor :
  shiftKey e = true →
  lastSelectedIndex st = Some anchor →
  let st' := handleRowClick index e st in
  lastSelectedIndex st' = Some anchor ∧
  (∀ i, i ∈ selectedIndices st' ↔
        (anchor ≤ i ≤ index)%nat ∨ (index ≤ i ≤ anchor)%nat ∨
        ((ctrlKey e || metaKey e) = true ∧ i ∈ selectedIndices st)) ∧
  index ∈ selectedIndices st' ∧ anchor ∈ selectedIndices st'.
Proof.
  intros Hshift Hanchor st'.
  assert (∀ i, i ∈ selectedIndices st' ↔
               (anchor ≤ i ≤ index)%nat ∨ (index ≤ i ≤ anchor)%nat ∨
               ((ctrlKey e || metaKey e) = true ∧ i ∈ selectedIndices st)) as Hsel.
  { intros i. subst st'. unfold handleRowClick. rewrite Hshift, Hanchor. simpl.
    rewrite elem_of_addRange.
    destruct (ctrlKey e), (metaKey e); simpl; rewrite ?elem_of_empty;
      split; intros H; try lia; intuition (try lia; try done). }
  split; [|split; [exact Hsel|]].
  - subst st'. unfold handleRowClick. by rewrite Hshift, Hanchor.
  - split; apply Hsel; lia.
Qed.

(** Rows 2 to 5 after a click on row 5 and a shift-click on row 2. *)
Lemma shift_click_selects_range_example :
  let plain := {| shiftKey := false; ctrlKey := false; metaKey := false |} in
  let shift := {| shiftKey := true; ctrlKey := false; metaKey := false |} in
  let st := handleRowClick 2 shift (handleRowClick 5 plain initial) in
  lastSelectedIndex st = Some 5%nat ∧
  (3%nat ∈ selectedIndices st) ∧ (6%nat ∉ selectedIndices st).
Proof.
  intros plain shift st.
  destruct (shift_click_selects_range 2 shift (handleRowClick 5 plain initial) 5
              eq_refl eq_refl) as (Hanchor & Hsel & _).
  split; [exact Hanchor|]. split.
  - apply Hsel. right. left. lia.
  - intros [?|[?|[? _]]]%Hsel; [lia|lia|done].
Defined.

(** A click with ctrl or meta held, and without shift, toggles the
    clicked row and leaves the other rows as they are; the clicked row
    becomes the anchor, also when it is deselected.  Two such clicks on a
    row restore the selection. *)
Theorem ctrl_click_toggles index e st :
  shiftKey e = false →
  ctrlKey e || metaKey e = true →
  let st' := handleRowClick index e st in
  lastSelectedIndex st' = Some index ∧
  (index ∈ selectedIndices st' ↔ index ∉ selectedIndices st) ∧
  (∀ i, i ≠ index → i ∈ selectedIndices st' ↔ i ∈ selectedIndices st) ∧
  selectedIndices (handleRowClick index e st') = selectedIndices st.
Proof.
  intros Hshift Hctrl st'.
  assert (∀ s, handleRowClick index e s
               = {| selectedIndices :=
                      if bool_decide (index ∈ selectedIndices s)
                      then selectedIndices s ∖ {[index]}
                      else {[index]} ∪ selectedIndices s;
                    lastSelectedIndex := Some index |}) as Hclick.
  { intros s. unfold handleRowClick. by rewrite Hshift, Hctrl. }
  assert (∀ s i, i ∈ selectedIndices (handleRowClick index e s) ↔
                 (i ≠ index ∧ i ∈ selectedIndices s) ∨
                 (i = index ∧ index ∉ selectedIndices s)) as Hsel.
  { intros s i. rewrite Hclick. simpl. case_bool_decide as Hin.
    - rewrite elem_of_difference, elem_of_singleton. split.
      + intros [? ?]. by left.
      + intros [[? ?]|[_ ?]]; done.
    - rewrite elem_of_union, elem_of_singleton. split.
      + intros [->|Hi]; [by right|]. left. split; [|done]. by intros ->.
      + intros [[_ ?]|[? _]]; auto. }
  split; [subst st'; by rewrite Hclick|]. split; [|split].
  - subst st'. rewrite Hsel. split; [intros [[? _]|[_ ?]]; done|auto].
  - intros i Hne. subst st'. rewrite Hsel. split; [intros [[_ ?]|[? _]]; done|auto].
  - apply set_eq. intros i. subst st'. rewrite !Hsel.
    destruct (decide (i = index)) as [->|Hne].
    + split.
      * intros [[? _]|[_ Hnot]]; [done|].
        destruct (decide (index ∈ selectedIndices st)) as [?|Hout]; [done|].
        exfalso. apply Hnot. by right.
      * intros Hin. right. split; [done|]. intros [[? _]|[_ ?]]; done.
    + split.
      * intros [[_ [[_ ?]|[? _]]]|[? _]]; done.
      * intros Hin. left. split; [done|]. by left.
Qed.

(** Row 4 is added to a selection of rows 1 and 2 and removed again. *)
Lemma ctrl_click_toggles_example :
  let ctrl := {| shiftKey := false; ctrlKey := true; metaKey := false |} in
  let st := {| selectedIndices := {[1%nat; 2%nat]}; lastSelectedIndex := Some 1%nat |} in
  (4%nat ∈ selectedIndices (handleRowClick 4 ctrl st)) ∧
  selectedIndices (handleRowClick 4 ctrl (handleRowClick 4 ctrl st)) = {[1%nat; 2%nat]}.
Proof.
  intros ctrl st.
  destruct (ctrl_click_toggles 4 ctrl st eq_refl eq_refl) as (_ & Hin & _ & Hback).
  split; [|exact Hback].
  apply Hin. simpl. rewrite elem_of_union, !elem_of_singleton. intros [?|?]; lia.
Defined.

(** The state after a sequence of clicks, each a row and its modifiers. *)
Lemma clicks_snoc (clicks : list (nat * MouseEvent)) click :
  foldl (λ st c, handleRowClick c.1 c.2 st) initial (clicks ++ [click])
  = handleRowClick click.1 click.2
      (foldl (λ st c, handleRowClick c.1 c.2 st) initial clicks).
Proof. by rewrite foldl_app. Qed.

(** Starting from the empty selection, clicks on the rows of a list of
    [rows] tasks never select an index outside the list, and the anchor
    stays inside it; after the first click an anchor is always set, and
    the selection is empty only if the last click deselected a row with
    ctrl or meta. *)
Theorem clicks_stay_in_range (rows : nat) (clicks : list (nat * MouseEvent)) :
  Forall (λ click, (click.1 < rows)%nat) clicks →
  let st := foldl (λ st c, handleRowClick c.1 c.2 st) initial clicks in
  (∀ i, i ∈ selectedIndices st → (i < rows)%nat) ∧
  (∀ anchor, lastSelectedIndex st = Some anchor → (anchor < rows)%nat) ∧
  (clicks ≠ [] → is_Some (lastSelectedIndex st)) ∧
  (∀ click, last clicks = Some click →
     selectedIndices st = ∅ → ctrlKey click.2 || metaKey click.2 = true).
Proof.
  intros Hclicks st. subst st.
  induction clicks as [|[index e] clicks IH] using rev_ind.
  - simpl. split; [by intros i ?%elem_of_empty|]. split; [done|]. split; done.
  - apply Forall_app in Hclicks as [Hclicks [Hindex _]%Forall_cons]. simpl in Hindex.
    destruct (IH Hclicks) as (Hsel & Hanchor & Hset & _). clear IH.
    rewrite clicks_snoc, last_snoc. simpl.
    set (st := foldl (λ st c, handleRowClick c.1 c.2 st) initial clicks) in *.
    unfold handleRowClick.
    destruct (shiftKey e) eqn:Hshift, (lastSelectedIndex st) as [anchor|] eqn:Hlast;
      simpl.
    + specialize (Hanchor anchor eq_refl).
      split; [|split; [|split]].
      * intros i [?|Hi]%elem_of_addRange; [lia|].
        destruct (ctrlKey e), (metaKey e); simpl in Hi;
          first [by apply Hsel|by apply elem_of_empty in Hi].
      * intros a [= <-]. done.
      * done.
      * intros click [= <-] Hempty. exfalso.
        assert (index ∈ addRange (anchor `min` index) (anchor `max` index)
                  (if negb (ctrlKey e) && negb (metaKey e)
                   then ∅ else selectedIndices st)) as Hin
          by (apply elem_of_addRange; left; lia).
        rewrite Hempty in Hin. by apply elem_of_empty in Hin.
    + destruct (ctrlKey e || metaKey e) eqn:Hctrl; simpl.
      * split; [|split; [|split]]; [|by intros a [= <-]|done|by intros click [= <-]].
        intros i. case_bool_decide.
        -- intros [? _]%elem_of_difference. by apply Hsel.
        -- intros [->%elem_of_singleton|?]%elem_of_union; [done|by apply Hsel].
      * split; [|split; [|split]]; [|by intros a [= <-]|done|].
        -- by intros i ->%elem_of_singleton.
        -- intros click _ Hempty. exfalso.
           assert (index ∈ ({[index]} : gset nat)) as Hin by (by apply elem_of_singleton).
           rewrite Hempty in Hin. by apply elem_of_empty in Hin.
    + destruct (ctrlKey e || metaKey e) eqn:Hctrl; simpl.
      * split; [|split; [|split]]; [|by intros a [= <-]|done|by intros click [= <-]].
        intros i. case_bool_decide.
        -- intros [? _]%elem_of_difference. by apply Hsel.
        -- intros [->%elem_of_singleton|?]%elem_of_union; [done|by apply Hsel].
      * split; [|split; [|split]]; [|by intros a [= <-]|done|].
        -- by intros i ->%elem_of_singleton.
        -- intros click _ Hempty. exfalso.
           assert (index ∈ ({[index]} : gset nat)) as Hin by (by apply elem_of_singleton).
           rewrite Hempty in Hin. by apply elem_of_empty in Hin.
    + destruct (ctrlKey e || metaKey e) eqn:Hctrl; simpl.
      * split; [|split; [|split]]; [|by intros a [= <-]|done|by intros click [= <-]].
        intros i. case_bool_decide.
        -- intros [? _]%elem_of_difference. by apply Hsel.
        -- intros [->%elem_of_singleton|?]%elem_of_union; [done|by apply Hsel].
      * split; [|split; [|split]]; [|by intros a [= <-]|done|].
        -- by intros i ->%elem_of_singleton.
        -- intros click _ Hempty. exfalso.
           assert (index ∈ ({[index]} : gset nat)) as Hin by (by apply elem_of_singleton).
           rewrite Hempty in Hin. by apply elem_of_empty in Hin.
Qed.

(** Three clicks on the rows of a list of six tasks. *)
Lemma clicks_stay_in_range_example :
  let plain := {| shiftKey := false; ctrlKey := false; metaKey := false |} in
  let shift := {| shiftKey := true; ctrlKey := false; metaKey := false |} in
  let ctrl := {| shiftKey := false; ctrlKey := true; metaKey := false |} in
  let st := foldl (λ st c, handleRowClick c.1 c.2 st) initial
              [(5%nat, plain); (2%nat, shift); (0%nat, ctrl)] in
  (∀ i, i ∈ selectedIndices st → (i < 6)%nat) ∧ is_Some (lastSelectedIndex st).
Proof.
  intros plain shift ctrl st.
  destruct (clicks_stay_in_range 6 [(5%nat, plain); (2%nat, shift); (0%nat, ctrl)])
    as (Hsel & _ & Hset & _).
  - repeat constructor; simpl; lia.
  - split; [exact Hsel|]. by apply Hset.
Defined.

End RowSelection.

(** ** Downloads from the dialog *)

Section Downloads.
Import Task Optimizer OptimizationModal Plan Samples.





Variable env : Optimizer.Browser.

Lemma handleDownloadSingle_data task :
  handleDownloadSingle env task = File (fileName task) (entryData env task).
Proof. reflexivity. Qed.


(** A click that is not a batch (on a row that is not selected, or that
    is the only selected one) downloads the clicked task alone, under its
    file name, with the bytes the archive would hold for it: the resized
    image, or the task's own bytes when it is not a resize or the resize
    fails.  When the file names of the list are distinct these are the
    bytes of the task's entry in the archive of the whole list. *)
Theorem single_download tasks (selected : gset nat) batchProcessing task index :
  index ∉ selected ∨ (size selected ≤ 1)%nat →
  handleDownloadAction env tasks selected batchProcessing task index
  = Some (File (fileName task) (entryData env task)) ∧
  (isResize task = false → entryData env task = blob task) ∧
  (task ∈ tasks → NoDup (fileName <$> tasks) →
   (generateOptimizedZip env tasks).1 !! ("images_optimized/" +:+ fileName task)
   = Some (entryData env task)).
Proof.
  intros Hsingle. split; [|split].
  - unfold handleDownloadAction. rewrite handleDownloadSingle_data.
    destruct Hsingle as [Hout|Hone].
    + by rewrite bool_decide_false.
    + destruct (Nat.ltb_spec 1 (size selected)); [lia|]. by rewrite andb_false_r.
  - intros Hcopy. unfold entryData. by rewrite Hcopy.
  - intros Hin Hnd. rewrite generateOptimizedZip_fold. simpl. rewrite zipTask_files.
    by apply written_own.
Qed.

End Downloads.

Section DownloadExamples.
Import Task Optimizer OptimizationModal Plan Samples.


(** A click on the button of a row that is not selected downloads that
    row's file alone. *)
Lemma single_download_example :
  let badge := planTask badge_stat badge_image (JS.num 10) in
  handleDownloadAction working_browser [badge] ∅ false badge 0
  = Some (File "ui/badge.png" png).
Proof.
  intros badge.
  destruct (single_download working_browser [badge] ∅ false badge 0) as (Hdl & _).
  - left. apply not_elem_of_empty.
  - exact Hdl.
Defined.

End DownloadExamples.

(** ** Where a region is painted *)

Section Painting.
Import Region AtlasUnpacker Placement Samples.

(** For a region of non-negative size, the pixels [extractRegion] paints
    lie within the canvas exactly when the packed rectangle, at the
    region's offsets, fits in the original size: the offsets are not
    negative, and the offset plus the extent of the packed rectangle along
    each axis of the original image (its height across and its width down
    when rotated) does not exceed the original size.  Otherwise part of
    the packed pixels fall outside the canvas. *)
Theorem painted_inside_canvas img region :
  0 ≤ width region → 0 ≤ height region →
  let canvas := drawRegion img region in
  Forall (λ call, inside canvas (Canvas.footprint call))
    (Canvas.drawn (Canvas.context canvas))
  ↔ fits region.
Proof.
  intros Hw Hh canvas. subst canvas. unfold drawRegion, fits.
  destruct (rotated region) eqn:Hrot; simpl;
    rewrite Forall_singleton; unfold inside, Canvas.footprint, Canvas.apply, destY,
      destX, packedHeightInOriginalSpace; rewrite Hrot; simpl; lia.
Qed.

(** The rotated region of 50x30 packed pixels at offset (5, 10) is painted
    within its canvas of 80x60; one of 70x30 packed pixels is not. *)
Lemma painted_inside_canvas_example :
  let long_region := region "arm" "page1.png" 70 30 true in
  Forall (λ call, inside (drawRegion png rotated_region) (Canvas.footprint call))
    (Canvas.drawn (Canvas.context (drawRegion png rotated_region))) ∧
  ¬ Forall (λ call, inside (drawRegion png long_region) (Canvas.footprint call))
      (Canvas.drawn (Canvas.context (drawRegion png long_region))).
Proof.
  intros long_region. split.
  - apply (painted_inside_canvas png rotated_region); [done|done|].
    repeat split; by vm_compute.
  - intros H. apply (painted_inside_canvas png long_region) in H; [|done|done].
    destruct H as (_ & _ & _ & H). by vm_compute in H.
Defined.

End Painting.

(** ** The application's use of the plan and of the packager *)

Section Application.
Import Stat Loaded Task Optimizer OptimizationModal App Plan Samples.

Lemma count_resized (tasks : list OptimizationTask) (start : Z) :
  foldl (λ resizedCount t, if isResize t then resizedCount + 1 else resizedCount)
    start tasks
  = start + Z.of_nat (length (resizeTasks tasks)).
Proof.
  unfold resizeTasks. revert start.
  induction tasks as [|t tasks IH]; intros start; simpl; [lia|].
  rewrite IH. destruct (isResize t) eqn:Ht.
  - rewrite filter_cons_True by done. simpl. lia.
  - by rewrite filter_cons_False by congruence.
Qed.

Lemma resizeTasks_planned stats loaded b :
  let tasks := calculateOptimizationTargets stats loaded b in
  tasks = resizeTasks tasks ++ filter (λ t, isResize t = false) tasks.
Proof.
  intros tasks. subst tasks. unfold calculateOptimizationTargets, resizeTasks.
  rewrite Array_sort_partition. set (pushed := pushedTasks _ _ _).
  rewrite !filter_app, !list_filter_filter.
  rewrite (filter_none (λ t, isResize t = true ∧ isResize t = false))
    by (intros t _ [? ?]; congruence).
  rewrite (filter_none (λ t, isResize t = false ∧ isResize t = true))
    by (intros t _ [? ?]; congruence).
  rewrite !app_nil_r, app_nil_l. f_equal; apply list_filter_iff; tauto.
Qed.

(** The number of resized tasks the application reports is the number of
    rows the dialog, opened on the same report, images and buffer, counts
    as to resize; these are the first rows of the dialog, and no row after
    them is a resize.  Without a report the count is 0 and the dialog is
    not opened. *)
Theorem resized_count_matches_dialog report processedAssets st :
  let count := resizedCount report processedAssets (optimizationBuffer st) in
  let st' := handleOpenOptimization report processedAssets st in
  (report = None → count = 0 ∧ st' = st) ∧
  (is_Some report →
   isOptModalOpen st' = true ∧
   count = Z.of_nat (length (resizeTasks (optTasks st'))) ∧
   take (Z.to_nat count) (optTasks st') = resizeTasks (optTasks st') ∧
   Forall (λ t, isResize t = false) (drop (Z.to_nat count) (optTasks st')) ∧
   0 ≤ count ≤ Z.of_nat (length (optTasks st'))).
Proof.
  intros count st'. split; [by intros ->|].
  intros [globalStats ->]. subst count st'. simpl.
  set (tasks := calculateOptimizationTargets _ _ _).
  rewrite count_resized, Z.add_0_l, Nat2Z.id.
  pose proof (resizeTasks_planned globalStats processedAssets
                (Some (optimizationBuffer st))) as Hsplit.
  simpl in Hsplit. fold tasks in Hsplit. clearbody tasks.
  assert (∃ resized kept,
            tasks = resized ++ kept ∧ resizeTasks tasks = resized ∧
            Forall (λ t, isResize t = false) kept) as (resized & kept & -> & Hr & Hk).
  { exists (resizeTasks tasks), (filter (λ t, isResize t = false) tasks).
    split; [done|]. split; [done|].
    apply Forall_forall. by intros t [? _]%list_elem_of_filter. }
  rewrite Hr. split; [done|]. split; [done|].
  split; [by rewrite take_app_length|]. split; [by rewrite drop_app_length|].
  rewrite length_app. lia.
Qed.

(** One resize among two planned tasks. *)
Lemma resized_count_matches_dialog_example :
  let stats := [badge_stat; hero_stat] in
  let loaded := [("ui/badge"%string, badge_image); ("characters/hero"%string, hero_image)] in
  let st := {| optTasks := []; isOptModalOpen := false; optimizationBuffer := JS.num 10 |} in
  resizedCount (Some stats) loaded (JS.num 10) = 1 ∧
  resizeTasks (optTasks (handleOpenOptimization (Some stats) loaded st))
  = [planTask hero_stat hero_image (JS.num 10)].
Proof.
  intros stats loaded st.
  destruct (resized_count_matches_dialog (Some stats) loaded st) as [_ H].
  destruct H as (_ & Hcount & Htake & _); [by eexists|].
  split; [by vm_compute|]. rewrite <- Htake. by vm_compute.
Defined.

Lemma planTask_overridden stat original b b' :
  isOverridden stat = true → planTask stat original b = planTask stat original b'.
Proof.
  intros Hov. unfold planTask, calculatedW, calculatedH. by rewrite Hov.
Qed.

Lemma pushedTasks_names stats loaded b b' :
  fileName <$> pushedTasks stats loaded b = fileName <$> pushedTasks stats loaded b'.
Proof.
  rewrite !pushedTasks_omap.
  induction loaded as [|[key original] loaded IH]; [done|].
  cbn [omap list_omap].
  destruct (planEntry (buildStatsMap stats) b (key, original)) as [t|] eqn:Ht,
           (planEntry (buildStatsMap stats) b' (key, original)) as [t'|] eqn:Ht';
    unfold planEntry in Ht, Ht'; simpl in Ht, Ht';
    destruct (buildStatsMap stats !! key); try done.
  injection Ht as <-. injection Ht' as <-. rewrite !fmap_cons. by rewrite IH.
Qed.

(** Changing the buffer while the dialog shows the tasks of a report
    replans them with the new buffer: the files are the same, possibly in
    another order, so the number of rows does not change and an index of
    the old list is an index of the new one; and the task of an image whose
    stat is overridden is planned as before. *)
Theorem buffer_change_keeps_rows globalStats processedAssets newBuffer st :
  optTasks st
  = calculateOptimizationTargets globalStats processedAssets (Some (optimizationBuffer st)) →
  let st' := handleBufferChange (Some globalStats) processedAssets newBuffer st in
  optimizationBuffer st' = newBuffer ∧
  isOptModalOpen st' = isOptModalOpen st ∧
  fileName <$> optTasks st' ≡ₚ fileName <$> optTasks st ∧
  length (optTasks st') = length (optTasks st) ∧
  (∀ key original stat,
     (key, original) ∈ processedAssets →
     buildStatsMap globalStats !! key = Some stat →
     isOverridden stat = true →
     planTask stat original (optimizationBuffer st) ∈ optTasks st ∧
     planTask stat original (optimizationBuffer st) ∈ optTasks st').
Proof.
  intros Htasks st'. subst st'. simpl. rewrite Htasks.
  assert (fileName <$> calculateOptimizationTargets globalStats processedAssets (Some newBuffer)
          ≡ₚ fileName <$> calculateOptimizationTargets globalStats processedAssets
                            (Some (optimizationBuffer st))) as Hnames.
  { unfold calculateOptimizationTargets. simpl.
    rewrite !Array_sort_Permutation.
    by rewrite (pushedTasks_names _ _ newBuffer (optimizationBuffer st)). }
  split; [done|]. split; [done|]. split; [exact Hnames|]. split.
  - apply Permutation_length in Hnames. by rewrite !length_fmap in Hnames.
  - intros key original stat Hin Hs Hov. split.
    + apply elem_of_calculateOptimizationTargets. eauto 10.
    + apply elem_of_calculateOptimizationTargets. exists key, original, stat.
      split; [done|]. split; [done|]. by apply planTask_overridden.
Qed.

(** Raising the buffer from 10 to 50 on two planned tasks. *)
Lemma buffer_change_keeps_rows_example :
  let stats := [badge_stat; hero_stat] in
  let loaded := [("ui/badge"%string, badge_image); ("characters/hero"%string, hero_image)] in
  let st := {| optTasks := calculateOptimizationTargets stats loaded (Some (JS.num 10));
               isOptModalOpen := true; optimizationBuffer := JS.num 10 |} in
  length (optTasks (handleBufferChange (Some stats) loaded (JS.num 50) st)) = 2%nat.
Proof.
  intros stats loaded st.
  destruct (buffer_change_keeps_rows stats loaded (JS.num 50) st eq_refl)
    as (_ & _ & _ & Hlen & _).
  rewrite Hlen. reflexivity.
Defined.


End Application.

(** ** Unpacked regions among the images in memory *)

Section AtlasStage.
Import Region AtlasUnpacker App Stage Samples.

Lemma setAll_lookup (unpacked : gmap string Asset.UnpackedAsset)
    (images : gmap string InMemoryImage) key :
  setAll unpacked images !! key
  = match unpacked !! key with
    | Some a => Some (unpackedEntry a)
    | None => images !! key
    end.
Proof.
  unfold setAll.
  assert (∀ (entries : list (string * Asset.UnpackedAsset))
            (images : gmap string InMemoryImage),
            NoDup entries.*1 →
            foldl (λ images entry, <[entry.1 := unpackedEntry entry.2]> images)
              images entries !! key
            = match (list_to_map entries : gmap string Asset.UnpackedAsset) !! key with
              | Some a => Some (unpackedEntry a)
              | None => images !! key
              end) as Hfold.
  { clear images. induction entries as [|[k a] entries IH]; intros images Hnd.
    - simpl. by rewrite lookup_empty.
    - apply NoDup_cons in Hnd as [Hk Hnd]. simpl. rewrite IH by done.
      destruct (decide (k = key)) as [->|Hne].
      + rewrite lookup_insert_eq.
        rewrite (not_elem_of_list_to_map_1 entries key Hk).
        by rewrite lookup_insert_eq.
      + rewrite (lookup_insert_ne (list_to_map entries)) by done.
        destruct (list_to_map entries !! key); [done|].
        by rewrite lookup_insert_ne. }
  change (λ images entry, <[entry.1 := {| asset := entry.2; blobFileName := None |}]> images)
    with (λ (images : gmap string InMemoryImage) (entry : string * Asset.UnpackedAsset),
            <[entry.1 := unpackedEntry entry.2]> images).
  rewrite Hfold by apply NoDup_fst_map_to_list.
  by rewrite list_to_map_to_list.
Qed.

Lemma elem_of_atlasPagesToCheck (metadata : list (string * AtlasRegion)) page :
  page ∈ atlasPagesToCheck metadata ↔ page ∈ pageName <$> metadata.*2.
Proof.
  unfold atlasPagesToCheck.
  assert (∀ (regions : list AtlasRegion) (pages : gset string),
            page ∈ foldl (λ pages region, {[pageName region]} ∪ pages) pages regions ↔
            page ∈ pageName <$> regions ∨ page ∈ pages) as Hfold.
  { induction regions as [|r regions IH]; intros pages; simpl.
    - rewrite elem_of_nil. tauto.
    - rewrite IH, elem_of_cons, elem_of_union, elem_of_singleton. tauto. }
  rewrite Hfold, elem_of_empty. tauto.
Qed.

Lemma checkKeys_lookup (pages : gset string) (keys : list string)
    (images : gmap string InMemoryImage) key :
  foldl (checkKey pages) images keys !! key
  = match images !! key with
    | Some image =>
        if bool_decide (key ∈ keys) && isPageFile pages image then None else Some image
    | None => None
    end.
Proof.
  revert images. induction keys as [|k keys IH]; intros images; simpl.
  - by destruct (images !! key).
  - rewrite IH. unfold checkKey at 1.
    destruct (decide (k = key)) as [->|Hne].
    + rewrite (bool_decide_true (key ∈ key :: keys)) by (by left).
      destruct (images !! key) as [image|] eqn:Himage; rewrite ?Himage; [|done].
      unfold isPageFile.
      destruct (blobFileName image) as [name|] eqn:Hname.
      * destruct (bool_decide (name ∈ pages)) eqn:Hpage.
        -- by rewrite lookup_delete_eq.
        -- by rewrite Himage, Hname, Hpage, !andb_false_r.
      * by rewrite Himage, Hname, !andb_false_r.
    + assert (bool_decide (key ∈ k :: keys) = bool_decide (key ∈ keys)) as ->.
      { apply bool_decide_ext. rewrite elem_of_cons. split; [intros [?|?]; done|auto]. }
      destruct (images !! k) as [image|]; [|done].
      destruct (blobFileName image) as [name|]; [|done].
      destruct (bool_decide (name ∈ pages)); [|done]. by rewrite lookup_delete_ne.
Qed.

Lemma length_positive {A} (l : list A) : l ≠ [] → (0 <? length l)%nat = true.
Proof. by destruct l. Qed.

Lemma cleanupAtlasPages_lookup (metadata : list (string * AtlasRegion))
    (images : gmap string InMemoryImage) key :
  metadata ≠ [] →
  cleanupAtlasPages metadata images !! key
  = match images !! key with
    | Some image =>
        if isPageFile (atlasPagesToCheck metadata) image then None else Some image
    | None => None
    end.
Proof.
  intros Hne. unfold cleanupAtlasPages.
  rewrite (length_positive metadata Hne), checkKeys_lookup.
  destruct (images !! key) as [image|] eqn:Himage; [|done].
  rewrite bool_decide_true; [done|].
  apply list_elem_of_fmap. exists (key, image). split; [done|].
  by apply elem_of_map_to_list.
Qed.

(** After the atlas stage (lines 1035-1060) with a non-empty atlas: when
    texture pages were supplied, every unpacked region is in memory under
    its name, in place of any image loaded under that name; no remaining
    entry is a file named like a page of the atlas; and an image that is
    not such a file, and whose key is not the name of an unpacked region,
    is kept as it was.  Every entry comes from one of the two.  With an
    empty atlas the stage changes nothing. *)
Theorem atlas_stage_result env (texturePages : gmap string Blob)
    (atlasMetadata : list (string * AtlasRegion))
    (images : gmap string InMemoryImage) :
  let unpacked := (unpackTextures env texturePages atlasMetadata true).1 in
  let result :=
    cleanupAtlasPages atlasMetadata (unpackAtlas env texturePages atlasMetadata images) in
  (atlasMetadata = [] → result = images) ∧
  (atlasMetadata ≠ [] →
   (texturePages ≠ ∅ →
    ∀ key a, unpacked !! key = Some a → result !! key = Some (unpackedEntry a)) ∧
   (∀ key image name,
      result !! key = Some image → blobFileName image = Some name →
      name ∉ pageName <$> atlasMetadata.*2) ∧
   (∀ key image,
      images !! key = Some image →
      texturePages = ∅ ∨ unpacked !! key = None →
      result !! key
      = if isPageFile (atlasPagesToCheck atlasMetadata) image then None else Some image) ∧
   (∀ key image,
      result !! key = Some image →
      images !! key = Some image ∨
      (texturePages ≠ ∅ ∧ ∃ a, unpacked !! key = Some a ∧ image = unpackedEntry a))).
Proof.
  intros unpacked result. split.
  { intros ->. subst result. reflexivity. }
  intros Hne.
  assert (unpackAtlas env texturePages atlasMetadata images
          = if decide (texturePages = ∅) then images else setAll unpacked images) as Hmerge.
  { unfold unpackAtlas. rewrite (length_positive atlasMetadata Hne). simpl andb.
    destruct (decide (texturePages = ∅)) as [->|Hpages]; [done|].
    destruct (Nat.ltb_spec 0 (size texturePages)) as [_|Hsize]; [done|].
    exfalso. apply Hpages, map_size_empty_iff. lia. }
  assert (∀ key, result !! key
                 = match (if decide (texturePages = ∅) then images
                          else setAll unpacked images) !! key with
                   | Some image =>
                       if isPageFile (atlasPagesToCheck atlasMetadata) image
                       then None else Some image
                   | None => None
                   end) as Hresult.
  { intros key. subst result. by rewrite cleanupAtlasPages_lookup, Hmerge. }
  split; [|split; [|split]].
  - intros Hpages key a Ha. rewrite Hresult.
    destruct (decide (texturePages = ∅)); [done|].
    by rewrite setAll_lookup, Ha.
  - intros key image name Hl Hname Hpage. rewrite Hresult in Hl.
    destruct (_ !! key) as [image'|]; [|done].
    destruct (isPageFile _ image') eqn:Hfile; [done|]. injection Hl as ->.
    unfold isPageFile in Hfile. rewrite Hname in Hfile.
    apply bool_decide_eq_false in Hfile. by apply Hfile, elem_of_atlasPagesToCheck.
  - intros key image Himage Hun. rewrite Hresult.
    destruct (decide (texturePages = ∅)) as [Hempty|Hpages].
    + by rewrite Himage.
    + destruct Hun as [?|Hun]; [done|]. by rewrite setAll_lookup, Hun, Himage.
  - intros key image Hl. rewrite Hresult in Hl.
    destruct (decide (texturePages = ∅)) as [Hempty|Hpages].
    + destruct (images !! key) as [image'|]; [|done].
      destruct (isPageFile _ image'); [done|]. left. done.
    + rewrite setAll_lookup in Hl.
      destruct (unpacked !! key) as [a|] eqn:Ha.
      * simpl in Hl. injection Hl as <-. right. split; [done|]. by exists a.
      * destruct (images !! key) as [image'|]; [|done].
        destruct (isPageFile _ image'); [done|]. by left.
Qed.

End AtlasStage.

Section AtlasStageExamples.
Import Region AtlasUnpacker App Stage Unpacked Samples.

(** The page file itself is dropped from memory and the region unpacked
    from it is kept; a loose image stays. *)
Example atlas_stage_sample :
  let page_image :=
    {| asset := assetOf unpacking_browser rotated_region png;
       blobFileName := Some "page1.png"%string |} in
  let loose_image :=
    {| asset := assetOf unpacking_browser rotated_region png;
       blobFileName := Some "loose.png"%string |} in
  let images : gmap string InMemoryImage :=
    {[ "page1.png"%string := page_image; "loose.png"%string := loose_image ]} in
  let result := cleanupAtlasPages atlas (unpackAtlas unpacking_browser pages atlas images) in
  result !! "page1.png"%string = None ∧
  result !! "loose.png"%string = Some loose_image ∧
  result !! "arm"%string = Some (unpackedEntry (assetOf unpacking_browser rotated_region png)).
Proof. repeat split; by vm_compute. Qed.

End AtlasStageExamples.

(** ** From the loaded images to the archive *)

Section PlannedArchive.
Import Stat Loaded Task Optimizer Plan Samples.

Lemma length_omap_le {A B} (f : A → option B) (l : list A) :
  (length (omap f l) ≤ length l)%nat.
Proof.
  induction l as [|x l IH]; [done|].
  cbn [omap list_omap]. destruct (f x); simpl; lia.
Qed.

Variable env : Optimizer.Browser.

(** Packaging the planned tasks: every loaded image that has a stat has an
    entry in the archive, at its output name under the root folder; every
    entry of the archive is written for such an image and holds either the
    image's own bytes or what [resizeImage] made of them at the planned
    target size; so an image without a stat contributes nothing, and the
    archive has at most as many entries as there are loaded images. *)
Theorem planned_archive stats loaded b :
  let buffer := JS.nullish b (JS.num 0) in
  let tasks := calculateOptimizationTargets stats loaded b in
  let archive := (generateOptimizedZip env tasks).1 in
  (∀ key original,
     (key, original) ∈ loaded → is_Some (buildStatsMap stats !! key) →
     is_Some (archive !! ("images_optimized/" +:+ outputFileName (originalPath original)))) ∧
  (∀ path data,
     archive !! path = Some data →
     ∃ key original stat,
       (key, original) ∈ loaded ∧ buildStatsMap stats !! key = Some stat ∧
       path = "images_optimized/" +:+ outputFileName (originalPath original) ∧
       let t := planTask stat original buffer in
       (data = file original ∨
        isResize t = true ∧
        resizeImage env (file original) (targetWidth t) (targetHeight t) = Some data)) ∧
  (size archive ≤ length loaded)%nat.
Proof.
  intros buffer tasks archive.
  assert (archive = written env tasks) as ->.
  { subst archive. rewrite generateOptimizedZip_fold. simpl. by rewrite zipTask_files. }
  split; [|split].
  - intros key original Hin [stat Hs].
    assert (planTask stat original buffer ∈ tasks) as Ht
      by (apply elem_of_calculateOptimizationTargets; eauto 10).
    destruct (written_present env tasks _ Ht) as (t' & _ & _ & Hl).
    by exists (entryData env t').
  - intros path data Hl.
    apply written_origin in Hl as (t & Ht & -> & ->).
    apply elem_of_calculateOptimizationTargets in Ht
      as (key & original & stat & Hin & Hs & ->).
    exists key, original, stat. split; [done|]. split; [done|]. split; [done|].
    fold buffer. intros t. unfold entryData. fold t.
    destruct (isResize t) eqn:Hr; [|by left].
    change (blob t) with (file original).
    destruct (resizeImage env (file original) (targetWidth t) (targetHeight t))
      as [resized|] eqn:Hres; [by right|by left].
  - destruct (size_distinct_names (fileName <$> tasks)) as [Hle _].
    rewrite written_names. rewrite length_fmap in Hle.
    assert (length tasks ≤ length loaded)%nat; [|lia].
    subst tasks. unfold calculateOptimizationTargets.
    rewrite (Permutation_length (Array_sort_Permutation _)), pushedTasks_omap.
    apply length_omap_le.
Qed.

End PlannedArchive.
